(** * A shallow embedding of [a10.py], the Wikipedia question answerer

    The program reads a line, tokenises it, looks the tokens up in an ordered
    pattern-action table ([pa_list]) and runs the handler of the first pattern
    that matches.  Handlers fetch a Wikipedia page, take the text of its first
    infobox, clean it and pull one field out of it with a regular expression.

    Conventions of the model:
    - a Python [str] is a [string]; a character is an [ascii], read as the code
      point it carries (code points below 256);
    - a Python exception is a value of [exn]; a computation that may raise
      returns a [res];
    - the network and the HTML parser are a [World] of functions;
    - standard output is a list of [out_event]s, rendered by [render]. *)

From Stdlib Require Import List String Ascii Bool Arith NArith Lia.
Import ListNotations.
Open Scope string_scope.
Open Scope list_scope.

Set Implicit Arguments.

(** ** Python built-ins used by the program *)

Module Py.

Definition code (c : ascii) : N := N_of_ascii c.

Definition in_range (lo hi : N) (c : ascii) : bool :=
  ((lo <=? code c) && (code c <=? hi))%N.

(** [str.isspace] on one character (code points below 256): TAB..CR,
    FS..US, space, NEL and NBSP. *)
Definition isspace (c : ascii) : bool :=
  in_range 9 13 c || in_range 28 32 c
  || (code c =? 133)%N || (code c =? 160)%N.

(** [str.lower] on one character: A-Z and the Latin-1 capitals
    (0xC0..0xDE without the multiplication sign 0xD7) move up by 32.  Below
    code point 256 [str.lower] works character by character; beyond it the
    result can depend on the neighbours (the Greek capital sigma), and such
    text is outside the model. *)
Definition lower_char (c : ascii) : ascii :=
  if in_range 65 90 c || (in_range 192 222 c && negb (code c =? 215)%N)
  then ascii_of_N (code c + 32)
  else c.

Fixpoint lower (s : string) : string :=
  match s with
  | EmptyString => EmptyString
  | String c s' => String (lower_char c) (lower s')
  end.

(** [s.replace(old, empty)] for a one-character [old] and the empty
    replacement: every occurrence of [old] goes. *)
Fixpoint remove_char (old : ascii) (s : string) : string :=
  match s with
  | EmptyString => EmptyString
  | String c s' =>
      if Ascii.eqb c old then remove_char old s'
      else String c (remove_char old s')
  end.

Definition is_empty (s : string) : bool :=
  match s with EmptyString => true | String _ _ => false end.

(** [s.split()] with no separator: maximal runs of non-space characters.
    [word] is the run being read. *)
Fixpoint split_from (word s : string) : list string :=
  match s with
  | EmptyString => if is_empty word then [] else [word]
  | String c s' =>
      if isspace c
      then (if is_empty word then split_from EmptyString s'
            else word :: split_from EmptyString s')
      else split_from (word ++ String c EmptyString)%string s'
  end.

Definition split (s : string) : list string := split_from EmptyString s.

(** [sep.join(words)]. *)
Definition join (sep : string) (words : list string) : string :=
  String.concat sep words.

(** [c in s] for a one-character [c]. *)
Fixpoint char_in (c : ascii) (s : string) : bool :=
  match s with
  | EmptyString => false
  | String d s' => Ascii.eqb c d || char_in c s'
  end.

Definition chr (n : nat) : string := String (ascii_of_nat n) EmptyString.

(** The constants of the [string] module. *)
Definition digits : string := "0123456789".
Definition ascii_lowercase : string := "abcdefghijklmnopqrstuvwxyz".
Definition ascii_uppercase : string := "ABCDEFGHIJKLMNOPQRSTUVWXYZ".
Definition ascii_letters : string := (ascii_lowercase ++ ascii_uppercase)%string.
Definition punctuation : string :=
  ("!" ++ chr 34 ++ "#$%&'()*+,-./:;<=>?@[\]^_`{|}~")%string.
Definition whitespace : string :=
  (" " ++ chr 9 ++ chr 10 ++ chr 13 ++ chr 11 ++ chr 12)%string.
Definition printable : string :=
  (digits ++ ascii_letters ++ punctuation ++ whitespace)%string.

(** [str.strip()]: drop leading and trailing white space. *)
Fixpoint lstrip (s : string) : string :=
  match s with
  | EmptyString => EmptyString
  | String c s' => if isspace c then lstrip s' else s
  end.

Fixpoint rstrip (s : string) : string :=
  match s with
  | EmptyString => EmptyString
  | String c s' =>
      let t := rstrip s' in
      if is_empty t && isspace c then EmptyString else String c t
  end.

Definition strip (s : string) : string := rstrip (lstrip s).

End Py.

Definition space : ascii := ascii_of_nat 32.
Definition newline : ascii := ascii_of_nat 10.

(** ** [clean_text] *)

(** [re.sub(c+, c, text)] for one character [c]: scanning from the left, each
    maximal run of [c] is one match and is replaced by a single [c].
    [in_run] tells that the previous character belonged to a run. *)
Fixpoint sub_runs_from (in_run : bool) (c : ascii) (text : string) : string :=
  match text with
  | EmptyString => EmptyString
  | String x rest =>
      if Ascii.eqb x c
      then (if in_run then sub_runs_from true c rest
            else String c (sub_runs_from true c rest))
      else String x (sub_runs_from false c rest)
  end.

Definition sub_runs (c : ascii) (text : string) : string :=
  sub_runs_from false c text.

(** [char if char in string.printable else " "], for every [char]. *)
Fixpoint only_ascii (text : string) : string :=
  match text with
  | EmptyString => EmptyString
  | String c rest =>
      String (if Py.char_in c Py.printable then c else space) (only_ascii rest)
  end.

Definition clean_text (text : string) : string :=
  let no_dup_spaces := sub_runs space (only_ascii text) in
  let no_dup_newlines := sub_runs newline no_dup_spaces in
  no_dup_newlines.

(** The normalisation in the words of the specification: non-printable
    characters are stripped (removed), then runs of spaces and runs of
    newlines are collapsed. *)
Fixpoint strip_non_printable (text : string) : string :=
  match text with
  | EmptyString => EmptyString
  | String c rest =>
      if Py.char_in c Py.printable then String c (strip_non_printable rest)
      else strip_non_printable rest
  end.

Definition clean_text_spec (text : string) : string :=
  sub_runs newline (sub_runs space (strip_non_printable text)).


(** ** Exceptions *)

(** The Python exceptions the program raises or catches.  [OtherError] stands
    for whatever the [wikipedia] package itself raises. *)
Inductive exn : Type :=
| KeyboardInterrupt
| EOFError
| AttributeError (msg : string)
| LookupError (msg : string)
| IndexError (msg : string)
| OtherError (msg : string).

Inductive res (A : Type) : Type :=
| Ok (a : A)
| Raise (e : exn).

Arguments Ok {A} a.
Arguments Raise {A} e.

Definition bind {A B : Type} (m : res A) (f : A -> res B) : res B :=
  match m with
  | Ok a => f a
  | Raise e => Raise e
  end.

Declare Scope res_scope.
Delimit Scope res_scope with res.
Notation "x <- m ;; k" := (bind m (fun x => k))
  (at level 100, m at next level, right associativity) : res_scope.
Open Scope res_scope.

(** ** The segment matcher [match] (module [match], imported by [a10.py]) *)

Definition Pattern : Type := list string.

(** The wildcard marker used by the patterns of [pa_list]. *)
Definition WILD : string := "%".

(** Modelled from the spec: the tag that tells a wildcard from a literal in a
    pattern (the module [match] is not among the sources). *)
Definition is_wildcard (tok : string) : bool := String.eqb tok WILD.

(** Modelled from the spec: the function [match] of the module [match], which
    [a10.py] imports and which is not among the sources.  Section 4.1:
    - an empty pattern succeeds, with an empty capture, iff the tokens are
      empty too;
    - a literal needs a first token equal to it, then the remainders match;
    - a wildcard takes at least one token; the splits are tried shortest
      first (one token, then two, ...) and the first split whose remainder
      matches wins; the capture is the span followed by the captures of the
      remainder, as one flat list.
    [None] is Python's [None] (no match). *)
Fixpoint match_ (pattern : Pattern) (tokens : list string)
  : option (list string) :=
  match pattern with
  | [] =>
      match tokens with
      | [] => Some []
      | _ :: _ => None
      end
  | p :: pattern' =>
      if is_wildcard p then
        (fix try_split (span tokens : list string) : option (list string) :=
           match tokens with
           | [] => None
           | t :: rest =>
               match match_ pattern' rest with
               | Some capture => Some ((span ++ [t]) ++ capture)
               | None => try_split (span ++ [t]) rest
               end
           end) [] tokens
      else
        match tokens with
        | [] => None
        | t :: rest => if String.eqb p t then match_ pattern' rest else None
        end
  end.

(** The split search of a wildcard, on its own: [rest_match] is the match of
    the pattern after the wildcard. *)
Fixpoint try_split (rest_match : list string -> option (list string))
         (span tokens : list string) : option (list string) :=
  match tokens with
  | [] => None
  | t :: rest =>
      match rest_match rest with
      | Some capture => Some ((span ++ [t]) ++ capture)
      | None => try_split rest_match (span ++ [t]) rest
      end
  end.

(** ** Regular expressions ([re]) *)

(** The part of Python's [re] that the program's five patterns use, with the
    flags [get_match] always compiles them with: [re.IGNORECASE]
    (a character fits when it, its lower case or its upper case does) and
    [re.DOTALL] (the dot fits every character, newlines too). *)
Module Re.

Inductive charset : Type :=
| Lit (c : ascii)                 (* an ordinary character *)
| Dot                             (* .   *)
| Digit                           (* \d  *)
| NonDigit                        (* \D  *)
| Space                           (* \s  *)
| Word                            (* \w  *)
| Range (lo hi : ascii)           (* lo-hi inside [...] *)
| Either (a b : charset).         (* [ab]: the union of the items of [...] *)

Inductive regex : Type :=
| Eps
| Chr (cs : charset)                    (* one character *)
| Seq (r1 r2 : regex)                   (* r1 r2 *)
| Star (greedy : bool) (cs : charset)   (* x* and x*? for a one-character x *)
| Opt (r : regex)                       (* (?:r)? *)
| Group (name : string) (r : regex).    (* (?P<name>r); (r) is named by its number *)

Definition is_digit (c : ascii) : bool := Py.in_range 48 57 c.

(** [str.isalnum] below 256, and the underscore. *)
Definition is_word (c : ascii) : bool :=
  is_digit c || Py.in_range 65 90 c || Py.in_range 97 122 c
  || (Py.code c =? 95)%N
  || (Py.code c =? 170)%N || (Py.code c =? 181)%N || (Py.code c =? 186)%N
  || Py.in_range 178 179 c || (Py.code c =? 185)%N || Py.in_range 188 190 c
  || (Py.in_range 192 255 c
      && negb (Py.code c =? 215)%N && negb (Py.code c =? 247)%N).

(** [str.upper] on one character, where the result stays below 256. *)
Definition upper_char (c : ascii) : ascii :=
  if Py.in_range 97 122 c
     || (Py.in_range 224 254 c && negb (Py.code c =? 247)%N)
  then ascii_of_N (Py.code c - 32)
  else c.

Fixpoint fits_exact (cs : charset) (c : ascii) : bool :=
  match cs with
  | Lit d => Ascii.eqb c d
  | Dot => true
  | Digit => is_digit c
  | NonDigit => negb (is_digit c)
  | Space => Py.isspace c
  | Word => is_word c
  | Range lo hi => Py.in_range (Py.code lo) (Py.code hi) c
  | Either a b => fits_exact a c || fits_exact b c
  end.

Definition fits (cs : charset) (c : ascii) : bool :=
  fits_exact cs c || fits_exact cs (Py.lower_char c)
  || fits_exact cs (upper_char c).

(** The groups of a match object: name (or number) and matched text. *)
Definition Match : Type := list (string * string).

Fixpoint group_opt (m : Match) (name : string) : option string :=
  match m with
  | [] => None
  | (n, text) :: m' => if String.eqb n name then Some text else group_opt m' name
  end.

(** [m.group(name)].  The groups that the program reads are bound by every
    match of their pattern (see [search_binds_groups]); for a group that took
    no part in the match, Python's [None], the model has the empty string. *)
Definition group (m : Match) (name : string) : string :=
  match group_opt m name with
  | Some text => text
  | None => EmptyString
  end.

(** The groups that every match of [r] binds. *)
Fixpoint bound_groups (r : regex) : list string :=
  match r with
  | Eps | Chr _ | Star _ _ | Opt _ => []
  | Seq r1 r2 => bound_groups r1 ++ bound_groups r2
  | Group name r1 => name :: bound_groups r1
  end.

Definition consumed (before after : string) : string :=
  substring 0 (String.length before - String.length after) before.

(** Backtracking matcher in continuation style: [run r s g k] matches [r] at
    the front of [s] and hands the rest of the text and the groups to [k];
    when [k] refuses, the next alternative of [r] is tried, in the order of
    Python's engine (a greedy item first tries to take more, a lazy one
    first tries to take less). *)
Fixpoint run {T : Type} (r : regex) (s : string) (g : Match)
         (k : string -> Match -> option T) : option T :=
  match r with
  | Eps => k s g
  | Chr cs =>
      match s with
      | EmptyString => None
      | String c s' => if fits cs c then k s' g else None
      end
  | Seq r1 r2 => run r1 s g (fun s' g' => run r2 s' g' k)
  | Star true cs =>
      (fix more (s : string) : option T :=
         match s with
         | EmptyString => k s g
         | String c s' =>
             if fits cs c
             then match more s' with
                  | Some x => Some x
                  | None => k s g
                  end
             else k s g
         end) s
  | Star false cs =>
      (fix less (s : string) : option T :=
         match k s g with
         | Some x => Some x
         | None =>
             match s with
             | EmptyString => None
             | String c s' => if fits cs c then less s' else None
             end
         end) s
  | Opt r1 =>
      match run r1 s g k with
      | Some x => Some x
      | None => k s g
      end
  | Group name r1 =>
      run r1 s g (fun s' g' => k s' ((name, consumed s s') :: g'))
  end.

(** [p.search(text)]: the first position, from the left, where the pattern
    matches. *)
Fixpoint search (r : regex) (text : string) : option Match :=
  match run r text [] (fun _ g => Some g) with
  | Some m => Some m
  | None =>
      match text with
      | EmptyString => None
      | String _ text' => search r text'
      end
  end.

(** Pattern syntax: a literal string, [x+], [x{n}]. *)
Fixpoint lit (s : string) : regex :=
  match s with
  | EmptyString => Eps
  | String c s' => Seq (Chr (Lit c)) (lit s')
  end.

Definition plus (cs : charset) : regex := Seq (Chr cs) (Star true cs).

Fixpoint times (n : nat) (cs : charset) : regex :=
  match n with
  | O => Eps
  | S n' => Seq (Chr cs) (times n' cs)
  end.

Fixpoint seq (rs : list regex) : regex :=
  match rs with
  | [] => Eps
  | r :: rs' => Seq r (seq rs')
  end.

End Re.

(** ** Fetching and extracting *)

(** The collaborators outside the program: [wikipedia.search],
    [WikipediaPage(title).html()], and BeautifulSoup's
    [find_all(class_="infobox")] followed by [.text] on each result. *)
Record World : Type := {
  wikipedia_search : string -> res (list string);
  page_html : string -> res string;
  infobox_texts : string -> list string
}.

Section Extractors.

Variable w : World.

Definition get_page_html (title : string) : res string :=
  results <- wikipedia_search w title ;;
  match results with
  | [] => Raise (IndexError "list index out of range")
  | first :: _ => page_html w first
  end.

Definition get_first_infobox_text (html : string) : res string :=
  match infobox_texts w html with
  | [] => Raise (LookupError "Page has no infobox")
  | first :: _ => Ok first
  end.

Definition get_match (text : string) (pattern : Re.regex) (error_text : string)
  : res Re.Match :=
  match Re.search pattern text with
  | None => Raise (AttributeError error_text)
  | Some m => Ok m
  end.

Definition infobox_of (title : string) : res string :=
  html <- get_page_html title ;;
  text <- get_first_infobox_text html ;;
  Ok (clean_text text).

(** [(?:Polar radius.*?)(?: ?[\d]+ )?(?P<radius>[\d,.]+)(?:.*?)km] *)
Definition polar_radius_pattern : Re.regex :=
  Re.seq [ Re.lit "Polar radius"; Re.Star false Re.Dot;
           Re.Opt (Re.seq [ Re.Opt (Re.Chr (Re.Lit " "));
                            Re.plus Re.Digit;
                            Re.Chr (Re.Lit " ") ]);
           Re.Group "radius"
             (Re.plus (Re.Either Re.Digit (Re.Either (Re.Lit ",") (Re.Lit "."))));
           Re.Star false Re.Dot; Re.lit "km" ].

Definition get_polar_radius (planet_name : string) : res string :=
  infobox_text <- infobox_of planet_name ;;
  m <- get_match infobox_text polar_radius_pattern
         "Page infobox has no polar radius information" ;;
  Ok (Re.group m "radius").

(** The non-capturing group of [Born\D*], then
    [(?P<birth>\d{4}-\d{2}-\d{2})]. *)
Definition birth_date_pattern : Re.regex :=
  Re.seq [ Re.lit "Born"; Re.Star true Re.NonDigit;
           Re.Group "birth"
             (Re.seq [ Re.times 4 Re.Digit; Re.lit "-";
                       Re.times 2 Re.Digit; Re.lit "-";
                       Re.times 2 Re.Digit ]) ].

Definition get_birth_date (name : string) : res string :=
  infobox_text <- infobox_of name ;;
  m <- get_match infobox_text birth_date_pattern
         "Page infobox has no birth information (at least none in xxxx-xx-xx format)" ;;
  Ok (Re.group m "birth").

(** [(?:Population.*?)(?P<population>[\d,]+)(?:.*?)\s*people] *)
Definition population_pattern : Re.regex :=
  Re.seq [ Re.lit "Population"; Re.Star false Re.Dot;
           Re.Group "population" (Re.plus (Re.Either Re.Digit (Re.Lit ",")));
           Re.Star false Re.Dot; Re.Star true Re.Space; Re.lit "people" ].

Definition get_population (location_name : string) : res string :=
  infobox_text <- infobox_of location_name ;;
  m <- get_match infobox_text population_pattern
         "Page infobox has no population information" ;;
  Ok (Re.group m "population").

(** [(?:Official\s*languages.*?)(?P<languages>[\w\s,/-]+)(?:.*?)\n] *)
Definition official_language_pattern : Re.regex :=
  Re.seq [ Re.lit "Official"; Re.Star true Re.Space; Re.lit "languages";
           Re.Star false Re.Dot;
           Re.Group "languages"
             (Re.plus (Re.Either Re.Word (Re.Either Re.Space
                        (Re.Either (Re.Lit ",") (Re.Either (Re.Lit "/") (Re.Lit "-"))))));
           Re.Star false Re.Dot; Re.Chr (Re.Lit newline) ].

Definition get_official_language (country_name : string) : res string :=
  infobox_text <- infobox_of country_name ;;
  m <- get_match infobox_text official_language_pattern
         "Page infobox has no official language information" ;;
  Ok (Re.group m "languages").

(** [in\s*([A-Za-z\s]+),\s*([A-Za-z\s]+)] *)
Definition birth_place_pattern : Re.regex :=
  let name_chars := Re.Either (Re.Range "A" "Z") (Re.Either (Re.Range "a" "z") Re.Space) in
  Re.seq [ Re.lit "in"; Re.Star true Re.Space;
           Re.Group "1" (Re.plus name_chars);
           Re.lit ","; Re.Star true Re.Space;
           Re.Group "2" (Re.plus name_chars) ].

Definition get_birth_place (name : string) : res string :=
  infobox_text <- infobox_of name ;;
  m <- get_match infobox_text birth_place_pattern
         "Page infobox has no birth place information" ;;
  Ok (Py.strip (Re.group m "1") ++ ", " ++ Py.strip (Re.group m "2"))%string.

End Extractors.

(** ** Actions *)

(** An action takes the capture of the matched pattern and returns the list of
    answers, or raises. *)
Definition Action : Type := list string -> res (list string).

Section Actions.

Variable w : World.

Definition birth_date : Action := fun matches =>
  answer <- get_birth_date w (Py.join " " matches) ;;
  Ok [answer].

(** [matches[0]] raises [IndexError] on an empty list. *)
Definition polar_radius : Action := fun matches =>
  match matches with
  | [] => Raise (IndexError "list index out of range")
  | first :: _ =>
      answer <- get_polar_radius w first ;;
      Ok [answer]
  end.

Definition population : Action := fun matches =>
  answer <- get_population w (Py.join " " matches) ;;
  Ok [answer].

Definition official_language : Action := fun matches =>
  answer <- get_official_language w (Py.join " " matches) ;;
  Ok [answer].

Definition birth_place : Action := fun matches =>
  answer <- get_birth_place w (Py.join " " matches) ;;
  Ok [answer].

Definition bye_action : Action := fun dummy => Raise KeyboardInterrupt.

End Actions.

(** The functions of the module that have the shape of an action, by name: the
    table stores a reference to one of them. *)
Inductive action_name : Type :=
| BirthDate
| PolarRadius
| Population
| OfficialLanguage
| BirthPlace
| ByeAction.

Definition action_of (w : World) (name : action_name) : Action :=
  match name with
  | BirthDate => birth_date w
  | PolarRadius => polar_radius w
  | Population => population w
  | OfficialLanguage => official_language w
  | BirthPlace => birth_place w
  | ByeAction => bye_action
  end.

(** ** The pattern-action table and the dispatcher *)

Definition pa_list : list (Pattern * action_name) :=
  [ (Py.split "when was % born", BirthDate);
    (Py.split "what is the polar radius of %", PolarRadius);
    (["bye"], ByeAction) ].

Definition no_answers : list string := ["No answers"].
Definition dont_understand : list string := ["I don't understand"].

Section Dispatcher.

(** The dispatcher is written once for any matcher, any table and any way
    of calling the action of an entry. *)
Variable Act : Type.
Variable matcher : Pattern -> list string -> option (list string).
Variable call : Act -> Action.

(** The body of [search_pa_list], as a loop over [table].  The first
    component of the result is the list of the calls made: which action,
    with which capture. *)
Fixpoint search_table (table : list (Pattern * Act)) (src : list string)
  : list (Act * list string) * res (list string) :=
  match table with
  | [] => ([], Ok dont_understand)
  | (pat, act) :: table' =>
      match matcher pat src with
      | Some mat =>
          ([(act, mat)],
           answer <- call act mat ;;
           Ok (match answer with [] => no_answers | _ :: _ => answer end))
      | None => search_table table' src
      end
  end.

(** No pattern of [table] matches [src]. *)
Definition unmatched (table : list (Pattern * Act)) (src : list string) : Prop :=
  forall pat act, In (pat, act) table -> matcher pat src = None.

(** The entry that decides a query: the least index whose pattern matches. *)
Definition first_match (table : list (Pattern * Act)) (src : list string)
           (k : nat) (act : Act) (mat : list string) : Prop :=
  (exists pat, nth_error table k = Some (pat, act) /\ matcher pat src = Some mat)
  /\ forall k' p a, k' < k -> nth_error table k' = Some (p, a) ->
                    matcher p src = None.

End Dispatcher.

Definition search_pa_list_calls (w : World) (src : list string)
  : list (action_name * list string) * res (list string) :=
  search_table match_ (action_of w) pa_list src.

Definition search_pa_list (w : World) (src : list string) : res (list string) :=
  snd (search_pa_list_calls w src).

(** ** The query loop *)

(** What [input] does at one prompt: it returns a line, the user presses
    Ctrl-C ([KeyboardInterrupt]), or [input] raises another exception (a
    [UnicodeDecodeError] on bytes that standard input cannot decode, for
    instance, which is an [OtherError] here).  The end of the list is the end
    of the input (Ctrl-D, [EOFError]). *)
Inductive input_event : Type :=
| Line (text : string)
| CtrlC
| InputError (e : exn).

(** What the program writes. *)
Inductive out_event : Type :=
| Welcome              (* print("Welcome to the movie database!\n") *)
| Blank                (* print() *)
| Prompt               (* the prompt of input("Your query? ") *)
| Answer (ans : string)   (* print(ans) *)
| Farewell.            (* print("\nSo long!\n") *)



(** The query of one line: the question marks are removed, the line is
    lower-cased and split at white space. *)
Definition tokenize (line : string) : list string :=
  Py.split (Py.lower (Py.remove_char "?" line)).

(** How the [while True] loop ends: by [break], or by an exception that the
    [except] clause does not name. *)
Inductive loop_end : Type :=
| Break
| Uncaught (e : exn).

Definition caught (e : exn) : bool :=
  match e with
  | KeyboardInterrupt | EOFError => true
  | _ => false
  end.

Section QueryLoop.

Variable w : World.

(** The loop, over the events of the input; [out] is what has been written
    so far. *)
Fixpoint while_true (input : list input_event) (out : list out_event)
  : list out_event * loop_end :=
  match input with
  | [] => (out ++ [Blank; Prompt], Break)             (* EOFError *)
  | CtrlC :: _ => (out ++ [Blank; Prompt], Break)     (* KeyboardInterrupt *)
  | InputError e :: _ =>
      (out ++ [Blank; Prompt], if caught e then Break else Uncaught e)
  | Line text :: input' =>
      let query := tokenize text in
      match search_pa_list w query with
      | Ok answers =>
          while_true input' (out ++ [Blank; Prompt] ++ map Answer answers)
      | Raise e =>
          (out ++ [Blank; Prompt], if caught e then Break else Uncaught e)
      end
  end.

(** [query_loop()]: the text written and how the call ends, [None] for a
    normal return and [Some e] for the exception [e] leaving the function. *)
Definition query_loop (input : list input_event)
  : list out_event * option exn :=
  match while_true input [Welcome] with
  | (out, Break) => (out ++ [Farewell], None)
  | (out, Uncaught e) => (out, Some e)
  end.

End QueryLoop.

(** ** Notions used by the statements *)

Fixpoint all_chars (p : ascii -> bool) (s : string) : bool :=
  match s with
  | EmptyString => true
  | String c s' => p c && all_chars p s'
  end.

Fixpoint keep_chars (p : ascii -> bool) (s : string) : string :=
  match s with
  | EmptyString => EmptyString
  | String c s' => if p c then String c (keep_chars p s') else keep_chars p s'
  end.

(** No two neighbours of [s] are both [c]. *)
Fixpoint no_adjacent (c : ascii) (s : string) : bool :=
  match s with
  | EmptyString => true
  | String x s' =>
      match s' with
      | EmptyString => true
      | String y _ => negb (Ascii.eqb x c && Ascii.eqb y c) && no_adjacent c s'
      end
  end.

Definition starts_with (c : ascii) (s : string) : bool :=
  match s with
  | EmptyString => false
  | String x _ => Ascii.eqb x c
  end.

(** The maximal runs of [s]: each character with the length of its run. *)
Fixpoint runs (s : string) : list (ascii * nat) :=
  match s with
  | EmptyString => []
  | String x s' =>
      match runs s' with
      | (y, n) :: tl =>
          if Ascii.eqb x y then (y, S n) :: tl else (x, 1) :: (y, n) :: tl
      | [] => [(x, 1)]
      end
  end.

Fixpoint repeat_char (x : ascii) (n : nat) : string :=
  match n with
  | O => EmptyString
  | S n' => String x (repeat_char x n')
  end.

(** Every run of [c] written once, every other run written as it is. *)
Fixpoint write_runs (c : ascii) (rs : list (ascii * nat)) : string :=
  match rs with
  | [] => EmptyString
  | (x, n) :: rs' =>
      ((if Ascii.eqb x c then String c EmptyString else repeat_char x n)
       ++ write_runs c rs')%string
  end.

(** "Collapses every run of repeated [c] to a single [c]", run by run. *)
Definition collapse_runs (c : ascii) (s : string) : string :=
  write_runs c (runs s).

Definition is_printable (c : ascii) : bool := Py.char_in c Py.printable.

Definition is_blank (c : ascii) : bool := Ascii.eqb c space || Ascii.eqb c newline.

(** A token as the query loop hands it to the dispatcher: not empty, without
    white space, without question mark, and already in lower case. *)
Definition normal_token (tok : string) : bool :=
  negb (Py.is_empty tok)
  && all_chars (fun c => negb (Py.isspace c) && negb (Ascii.eqb c "?")
                         && Ascii.eqb (Py.lower_char c) c) tok.


Definition has_wildcard (pattern : Pattern) : bool := existsb is_wildcard pattern.

(** The failures of the extraction: [get_first_infobox_text] raises
    [LookupError], [get_match] raises [AttributeError]. *)
Definition extraction_failure (e : exn) : bool :=
  match e with
  | AttributeError _ | LookupError _ => true
  | _ => false
  end.

(** The answers printed for a line whose dispatch returns. *)
Definition answers_of (w : World) (text : string) : list string :=
  match search_pa_list w (tokenize text) with
  | Ok answers => answers
  | Raise _ => []
  end.

Definition dispatch_returns (w : World) (text : string) : bool :=
  match search_pa_list w (tokenize text) with
  | Ok _ => true
  | Raise _ => false
  end.

(** What the loop writes for the lines [texts], one round each. *)
Definition transcript (w : World) (texts : list string) : list out_event :=
  flat_map (fun text => [Blank; Prompt] ++ map Answer (answers_of w text)) texts.

(** The match [g] has a text for the group [name]. *)
Definition binds (g : Re.Match) (name : string) : Prop :=
  Re.group_opt g name <> None.

Definition is_farewell (e : out_event) : bool :=
  match e with
  | Farewell => true
  | _ => false
  end.

Definition farewells (out : list out_event) : nat :=
  List.length (filter is_farewell out).

(** ** Sample worlds *)

(** Every search finds one page; its first infobox holds [infobox]. *)
Definition world_with (infoboxes : list string) : World :=
  {| wikipedia_search := fun title => Ok [title];
     page_html := fun title => Ok ("<html>" ++ title ++ "</html>")%string;
     infobox_texts := fun _ => infoboxes |}.

Definition world_ada : World :=
  world_with ["Born Augusta Ada Byron 1815-12-10 London, England"].

Definition world_no_infobox : World := world_with [].

Definition world_no_born : World :=
  world_with ["Ada Lovelace Portrait Died 27 November 1852 London"].

(** The search itself raises [EOFError]. *)
Definition world_eof : World :=
  {| wikipedia_search := fun _ => Raise EOFError;
     page_html := fun title => Ok title;
     infobox_texts := fun _ => [] |}.

(** A page whose first infobox has one field for each extractor. *)
Definition world_facts : World :=
  world_with
    [ ("Born 1815-12-10 in London, England Polar radius 3,376.2 km "
       ++ "Population 1,234 people Official languages English, French"
       ++ String newline EmptyString)%string ].

(** ** Notions used by the further properties *)

(** [text] is [literal] up to the case of the letters, as the patterns
    compare them. *)
Fixpoint same_ignoring_case (literal text : string) : bool :=
  match literal, text with
  | EmptyString, EmptyString => true
  | String l literal', String c text' =>
      Re.fits (Re.Lit l) c && same_ignoring_case literal' text'
  | _, _ => false
  end.

(** White space or a question mark: what leaves no trace in a query. *)
Definition is_blank_or_mark (c : ascii) : bool :=
  Py.isspace c || Ascii.eqb c "?".

(** The ways in which fetching the infobox of [title] fails with [e]: the
    search raises; the search finds nothing and [results[0]] raises
    [IndexError]; the page raises; the page has no infobox. *)
Definition fetch_failure (w : World) (title : string) (e : exn) : Prop :=
  wikipedia_search w title = Raise e
  \/ (wikipedia_search w title = Ok []
      /\ e = IndexError "list index out of range")
  \/ (exists first rest,
         wikipedia_search w title = Ok (first :: rest)
         /\ page_html w first = Raise e)
  \/ (exists first rest html,
         wikipedia_search w title = Ok (first :: rest)
         /\ page_html w first = Ok html
         /\ infobox_texts w html = []
         /\ e = LookupError "Page has no infobox").

(** [text] is the cleaned text of the first infobox of the page of the first
    search result for [title]. *)
Definition fetched_infobox (w : World) (title text : string) : Prop :=
  exists first rest html box boxes,
    wikipedia_search w title = Ok (first :: rest)
    /\ page_html w first = Ok html
    /\ infobox_texts w html = box :: boxes
    /\ text = clean_text box.

(** The extractor fails with [e] when the fetch does, or else when the pattern
    is not found in the cleaned infobox, with [AttributeError] and the
    extractor's own message. *)
Definition extractor_failure (w : World) (title : string) (pattern : Re.regex)
           (error_text : string) (e : exn) : Prop :=
  fetch_failure w title e
  \/ (exists text,
         fetched_infobox w title text
         /\ Re.search pattern text = None
         /\ e = AttributeError error_text).

(** The texts that a pattern can take, groups left aside. *)
Fixpoint lang (r : Re.regex) (u : string) : Prop :=
  match r with
  | Re.Eps => u = EmptyString
  | Re.Chr cs => exists c, u = String c EmptyString /\ Re.fits cs c = true
  | Re.Seq r1 r2 =>
      exists u1 u2, u = (u1 ++ u2)%string /\ lang r1 u1 /\ lang r2 u2
  | Re.Star _ cs => all_chars (Re.fits cs) u = true
  | Re.Opt r1 => u = EmptyString \/ lang r1 u
  | Re.Group _ r1 => lang r1 u
  end.

(** The groups of a pattern, each with its body. *)
Fixpoint groups_in (r : Re.regex) : list (string * Re.regex) :=
  match r with
  | Re.Eps | Re.Chr _ | Re.Star _ _ => []
  | Re.Seq r1 r2 => groups_in r1 ++ groups_in r2
  | Re.Opt r1 => groups_in r1
  | Re.Group name r1 => (name, r1) :: groups_in r1
  end.

(** Every text that [g] holds for a group is a text that the body of a group
    of that name in [r] can take. *)
Definition groups_sound (r : Re.regex) (g : Re.Match) : Prop :=
  forall name text,
    Re.group_opt g name = Some text ->
    exists body, In (name, body) (groups_in r) /\ lang body text.

(** [s] has the length of [shape] and its characters pass the tests of
    [shape], one by one. *)
Fixpoint has_shape (shape : list (ascii -> bool)) (s : string) : bool :=
  match shape, s with
  | [], EmptyString => true
  | test :: shape', String c s' => test c && has_shape shape' s'
  | _, _ => false
  end.

Definition is_dash (c : ascii) : bool := Ascii.eqb c "-".

(** YYYY-MM-DD, digits and dashes. *)
Definition iso_date_shape : list (ascii -> bool) :=
  [ Re.is_digit; Re.is_digit; Re.is_digit; Re.is_digit; is_dash;
    Re.is_digit; Re.is_digit; is_dash; Re.is_digit; Re.is_digit ].

Definition is_radius_char (c : ascii) : bool :=
  Re.is_digit c || Ascii.eqb c "," || Ascii.eqb c ".".

Definition is_population_char (c : ascii) : bool :=
  Re.is_digit c || Ascii.eqb c ",".

Definition is_language_char (c : ascii) : bool :=
  Re.is_word c || Py.isspace c || Ascii.eqb c "," || Ascii.eqb c "/"
  || Ascii.eqb c "-".

Definition is_place_char (c : ascii) : bool :=
  Py.in_range 65 90 c || Py.in_range 97 122 c || Py.isspace c.

Fixpoint last_char (s : string) : option ascii :=
  match s with
  | EmptyString => None
  | String c EmptyString => Some c
  | String _ s' => last_char s'
  end.

Definition first_char (s : string) : option ascii :=
  match s with
  | EmptyString => None
  | String c _ => Some c
  end.

(** Neither the first nor the last character of [s] is white space. *)
Definition trimmed (s : string) : bool :=
  match first_char s, last_char s with
  | Some a, Some b => negb (Py.isspace a) && negb (Py.isspace b)
  | _, _ => true
  end.

(** * Properties *)

(** ** The dispatcher, for any matcher and any table *)

Section DispatcherFacts.

Variable Act : Type.
Variable matcher : Pattern -> list string -> option (list string).
Variable call : Act -> Action.

Lemma search_table_unmatched (table : list (Pattern * Act)) src :
  unmatched matcher table src ->
  search_table matcher call table src = ([], Ok dont_understand).
Proof.
  induction table as [| [pat act] table' IH]; intros Hnone; simpl.
  - reflexivity.
  - rewrite (Hnone pat act) by (left; reflexivity).
    apply IH. intros p a Hin. apply (Hnone p a). right. exact Hin.
Qed.

Lemma search_table_hit pat act table src mat :
  matcher pat src = Some mat ->
  search_table matcher call ((pat, act) :: table) src =
    ([(act, mat)],
     answer <- call act mat ;;
     Ok (match answer with [] => no_answers | _ :: _ => answer end)).
Proof. intros Hm. simpl. rewrite Hm. reflexivity. Qed.

Lemma first_match_exists (table : list (Pattern * Act)) src :
  forall i pat act,
    nth_error table i = Some (pat, act) -> matcher pat src <> None ->
    exists k a mat, k <= i /\ first_match matcher table src k a mat.
Proof.
  induction table as [| [p0 a0] table' IH]; intros i pat act Hnth Hm.
  - destruct i; discriminate.
  - destruct (matcher p0 src) as [mat0 |] eqn:E0.
    + exists 0, a0, mat0. split; [lia |]. split.
      * exists p0. split; [reflexivity | exact E0].
      * intros k' p a Hlt. lia.
    + destruct i as [| i'].
      * simpl in Hnth. injection Hnth as -> ->. congruence.
      * simpl in Hnth. destruct (IH i' pat act Hnth Hm) as (k & a & mat & Hle & [Hk Hbefore]).
        exists (S k), a, mat. split; [lia |]. split.
        -- exact Hk.
        -- intros [| k'] p q Hlt Hn; simpl in Hn.
           ++ injection Hn as <- <-. exact E0.
           ++ apply (Hbefore k' p q); [lia | exact Hn].
Qed.

Lemma first_match_dispatch (table : list (Pattern * Act)) src :
  forall k act mat,
    first_match matcher table src k act mat ->
    search_table matcher call table src =
      ([(act, mat)],
       answer <- call act mat ;;
       Ok (match answer with [] => no_answers | _ :: _ => answer end)).
Proof.
  induction table as [| [p0 a0] table' IH]; intros k act mat [(pat & Hnth & Hm) Hbefore].
  - destruct k; discriminate.
  - destruct k as [| k'].
    + simpl in Hnth. injection Hnth as -> ->. apply search_table_hit. exact Hm.
    + simpl. rewrite (Hbefore 0 p0 a0) by (simpl; (lia || reflexivity)).
      apply (IH k'). split.
      * exists pat. split; assumption.
      * intros k'' p a Hlt Hn. apply (Hbefore (S k'') p a); [lia | exact Hn].
Qed.

Lemma in_nth_error (table : list (Pattern * Act)) entry :
  In entry table -> exists i, nth_error table i = Some entry.
Proof.
  induction table as [| e table' IH]; intros Hin.
  - contradiction.
  - destruct Hin as [-> | Hin].
    + exists 0. reflexivity.
    + destruct (IH Hin) as [i Hi]. exists (S i). exact Hi.
Qed.

(** C3. When some pattern of the table matches, exactly one action is called;
    if it returns the empty list the dispatcher returns [["No answers"]], and
    if it returns a non-empty list the dispatcher returns that list
    unchanged. *)
Theorem dispatch_no_answers_sentinel (table : list (Pattern * Act)) src :
  (exists pat act, In (pat, act) table /\ matcher pat src <> None) ->
  exists act mat,
    fst (search_table matcher call table src) = [(act, mat)]
    /\ (call act mat = Ok [] -> snd (search_table matcher call table src) = Ok ["No answers"])
    /\ (forall answer, answer <> [] -> call act mat = Ok answer ->
                       snd (search_table matcher call table src) = Ok answer).
Proof.
  intros (pat & act & Hin & Hm).
  destruct (@in_nth_error table (pat, act) Hin) as [i Hi].
  destruct (@first_match_exists (table : list (Pattern * Act)) src i pat act Hi Hm) as (k & a & mat & _ & Hfirst).
  exists a, mat. rewrite (first_match_dispatch Hfirst). simpl.
  split; [reflexivity |]. split.
  - intros ->. reflexivity.
  - intros answer Hne ->. simpl. destruct answer; [contradiction | reflexivity].
Qed.

(** C4. When the entries at positions [i < j] both match, the dispatcher makes
    one call only: to the action of the first matching entry of the table,
    which stands at a position [k <= i]; the entry at [j] is not reached. *)
Theorem dispatch_earliest_entry_wins (table : list (Pattern * Act)) src i j pi ai pj aj :
  i < j ->
  nth_error table i = Some (pi, ai) -> matcher pi src <> None ->
  nth_error table j = Some (pj, aj) -> matcher pj src <> None ->
  exists k act mat,
    k <= i /\ k < j
    /\ first_match matcher table src k act mat
    /\ fst (search_table matcher call table src) = [(act, mat)]
    /\ snd (search_table matcher call table src) = snd (search_table matcher call (firstn (S k) table) src).
Proof.
  intros Hij Hi Hmi Hj Hmj.
  destruct (@first_match_exists (table : list (Pattern * Act)) src i pi ai Hi Hmi) as (k & a & mat & Hle & Hfirst).
  exists k, a, mat. split; [exact Hle |]. split; [lia |]. split; [exact Hfirst |].
  rewrite (first_match_dispatch Hfirst). split; [reflexivity |].
  assert (Hcut : first_match matcher (firstn (S k) table) src k a mat).
  { destruct Hfirst as [(pat & Hnth & Hm) Hbefore]. split.
    - exists pat. split; [| exact Hm].
      rewrite nth_error_firstn.
      destruct (Nat.ltb_spec k (S k)); [exact Hnth | lia].
    - intros k' p q Hlt Hn. apply (Hbefore k' p q Hlt).
      rewrite nth_error_firstn in Hn.
      destruct (Nat.ltb_spec k' (S k)); [exact Hn | discriminate]. }
  rewrite (first_match_dispatch Hcut). reflexivity.
Qed.

End DispatcherFacts.

(** ** The segment matcher *)

Lemma match_wildcard_unfold pat tokens :
  match_ (WILD :: pat) tokens = try_split (match_ pat) [] tokens.
Proof.
  assert (H : forall span,
             (fix go (span tokens : list string) : option (list string) :=
                match tokens with
                | [] => None
                | t :: rest =>
                    match match_ pat rest with
                    | Some capture => Some ((span ++ [t]) ++ capture)
                    | None => go (span ++ [t]) rest
                    end
                end) span tokens = try_split (match_ pat) span tokens).
  { induction tokens as [| t rest IH]; intros span; simpl.
    - reflexivity.
    - destruct (match_ pat rest); [reflexivity | apply IH]. }
  exact (H []).
Qed.

Lemma match_literal_unfold p pat tokens :
  is_wildcard p = false ->
  match_ (p :: pat) tokens =
    match tokens with
    | [] => None
    | t :: rest => if String.eqb p t then match_ pat rest else None
    end.
Proof. intros Hp. simpl. rewrite Hp. reflexivity. Qed.

Lemma try_split_some rest_match :
  forall tokens span capture,
    try_split rest_match span tokens = Some capture ->
    exists t mid rest capture',
      tokens = (t :: mid) ++ rest
      /\ rest_match rest = Some capture'
      /\ capture = span ++ (t :: mid) ++ capture'.
Proof.
  induction tokens as [| t rest IH]; intros span capture H; simpl in H.
  - discriminate.
  - destruct (rest_match rest) as [c |] eqn:E.
    + injection H as <-. exists t, [], rest, c.
      split; [reflexivity |]. split; [exact E |].
      rewrite <- app_assoc. reflexivity.
    + destruct (IH (span ++ [t]) capture H) as (t' & mid & rest' & c' & -> & Hr & ->).
      exists t, (t' :: mid), rest', c'.
      split; [reflexivity |]. split; [exact Hr |].
      rewrite <- app_assoc. reflexivity.
Qed.

Lemma match_literals_sound pat :
  has_wildcard pat = false ->
  forall tokens capture,
    match_ pat tokens = Some capture -> tokens = pat /\ capture = [].
Proof.
  induction pat as [| p pat' IH]; intros Hw tokens capture H.
  - destruct tokens; [| discriminate]. simpl in H. injection H as <-. split; reflexivity.
  - unfold has_wildcard in Hw. simpl in Hw. apply orb_false_elim in Hw as [Hp Hw].
    rewrite match_literal_unfold in H by exact Hp.
    destruct tokens as [| t rest]; [discriminate |].
    destruct (String.eqb_spec p t) as [-> |]; [| discriminate].
    destruct (IH Hw rest capture H) as [-> ->]. split; reflexivity.
Qed.

Lemma match_literals_complete pat :
  has_wildcard pat = false -> match_ pat pat = Some [].
Proof.
  induction pat as [| p pat' IH]; intros Hw.
  - reflexivity.
  - unfold has_wildcard in Hw. simpl in Hw. apply orb_false_elim in Hw as [Hp Hw].
    rewrite match_literal_unfold by exact Hp. rewrite String.eqb_refl. apply IH. exact Hw.
Qed.

(** C5. A pattern without wildcard matches a token list if and only if the
    token list is the pattern itself, token for token, and then the capture
    is empty. *)
Theorem match_without_wildcard_is_equality pat tokens :
  has_wildcard pat = false ->
  ((exists capture, match_ pat tokens = Some capture) <-> tokens = pat)
  /\ (forall capture, match_ pat tokens = Some capture -> capture = []).
Proof.
  intros Hw. split; [split |].
  - intros [capture H]. eapply match_literals_sound; eassumption.
  - intros ->. exists []. apply match_literals_complete. exact Hw.
  - intros capture H. eapply match_literals_sound; eassumption.
Qed.

(** C6. A wildcard at the head of a pattern takes at least one token: against
    the empty token list the match fails (so the pattern made of one wildcard
    fails there), and in a successful match the tokens are a non-empty span
    followed by tokens that the rest of the pattern matches, the capture
    being the span followed by the capture of the rest. *)
Theorem wildcard_takes_at_least_one_token pat tokens :
  match_ [WILD] [] = None
  /\ (tokens = [] -> match_ (WILD :: pat) tokens = None)
  /\ (forall capture,
         match_ (WILD :: pat) tokens = Some capture ->
         exists t mid rest capture',
           tokens = (t :: mid) ++ rest
           /\ match_ pat rest = Some capture'
           /\ capture = (t :: mid) ++ capture').
Proof.
  split; [reflexivity |]. split.
  - intros ->. reflexivity.
  - intros capture H. rewrite match_wildcard_unfold in H.
    apply try_split_some in H. exact H.
Qed.

(** ** Regular expressions: a match binds the groups of its pattern *)

Lemma binds_cons g name text name' :
  name' = name \/ binds g name' -> binds ((name, text) :: g) name'.
Proof.
  unfold binds. simpl. intros [-> | H].
  - rewrite String.eqb_refl. discriminate.
  - destruct (String.eqb name name'); [discriminate | exact H].
Qed.

Lemma run_binds_groups (T : Type) :
  forall r s g (k : string -> Re.Match -> option T) x,
    Re.run r s g k = Some x ->
    exists s' g',
      k s' g' = Some x
      /\ forall name, In name (Re.bound_groups r) \/ binds g name -> binds g' name.
Proof.
  induction r as [| cs | r1 IH1 r2 IH2 | greedy cs | r1 IH1 | gname r1 IH1];
    intros s g k x H; cbn [Re.run Re.bound_groups] in *.
  - exists s, g. split; [exact H |]. intros name [[] | Hb]. exact Hb.
  - destruct s as [| c s']; [discriminate |].
    destruct (Re.fits cs c); [| discriminate].
    exists s', g. split; [exact H |]. intros name [[] | Hb]. exact Hb.
  - apply IH1 in H as (s1 & g1 & H & Hg1).
    apply IH2 in H as (s2 & g2 & H & Hg2).
    exists s2, g2. split; [exact H |]. intros name [Hin | Hb].
    + apply in_app_or in Hin as [Hin | Hin].
      * apply Hg2. right. apply Hg1. left. exact Hin.
      * apply Hg2. left. exact Hin.
    + apply Hg2. right. apply Hg1. right. exact Hb.
  - assert (Hk : exists s', k s' g = Some x).
    { destruct greedy.
      - induction s as [| c s' IHs]; [exists EmptyString; exact H |].
        destruct (Re.fits cs c); [| exists (String c s'); exact H].
        match type of H with
        | match ?m with _ => _ end = _ => destruct m as [y |] eqn:E
        end.
        + injection H as ->. apply IHs. reflexivity.
        + exists (String c s'). exact H.
      - induction s as [| c s' IHs].
        + destruct (k EmptyString g) eqn:E; [| discriminate].
          exists EmptyString. rewrite E. exact H.
        + destruct (k (String c s') g) eqn:E.
          * exists (String c s'). rewrite E. exact H.
          * destruct (Re.fits cs c); [apply IHs; exact H | discriminate]. }
    destruct Hk as [s' Hk]. exists s', g. split; [exact Hk |].
    intros name [[] | Hb]. exact Hb.
  - destruct (Re.run r1 s g k) as [y |] eqn:E.
    + injection H as ->. apply IH1 in E as (s1 & g1 & E & Hg1).
      exists s1, g1. split; [exact E |]. intros name [[] | Hb].
      apply Hg1. right. exact Hb.
    + exists s, g. split; [exact H |]. intros name [[] | Hb]. exact Hb.
  - apply IH1 in H as (s1 & g1 & H & Hg1).
    exists s1, ((gname, Re.consumed s s1) :: g1). split; [exact H |].
    intros name [[<- | Hin] | Hb]; apply binds_cons.
    + left. reflexivity.
    + right. apply Hg1. left. exact Hin.
    + right. apply Hg1. right. exact Hb.
Qed.

Lemma search_binds_groups r :
  forall text m name,
    Re.search r text = Some m -> In name (Re.bound_groups r) ->
    Re.group_opt m name = Some (Re.group m name).
Proof.
  assert (Hrun : forall text m name,
             Re.run r text [] (fun _ g => Some g) = Some m ->
             In name (Re.bound_groups r) -> binds m name).
  { intros text m name H Hin.
    apply run_binds_groups in H as (s' & g' & H & Hg).
    injection H as ->. apply Hg. left. exact Hin. }
  assert (Hbinds : forall text m name,
             Re.search r text = Some m -> In name (Re.bound_groups r) ->
             binds m name).
  { induction text as [| c text' IH]; intros m name H Hin; cbn [Re.search] in H.
    - destruct (Re.run r EmptyString [] (fun _ g => Some g)) as [m' |] eqn:E;
        [| discriminate].
      injection H as ->. exact (Hrun _ _ _ E Hin).
    - destruct (Re.run r (String c text') [] (fun _ g => Some g)) as [m' |] eqn:E.
      + injection H as ->. exact (Hrun _ _ _ E Hin).
      + exact (IH _ _ H Hin). }
  intros text m name H Hin. specialize (Hbinds text m name H Hin).
  unfold binds in Hbinds. unfold Re.group.
  destruct (Re.group_opt m name); [reflexivity | contradiction].
Qed.

(** The groups that the five extractors read are bound. *)
Lemma extractor_groups_bound :
  In "radius" (Re.bound_groups polar_radius_pattern)
  /\ In "birth" (Re.bound_groups birth_date_pattern)
  /\ In "population" (Re.bound_groups population_pattern)
  /\ In "languages" (Re.bound_groups official_language_pattern)
  /\ In "1" (Re.bound_groups birth_place_pattern)
  /\ In "2" (Re.bound_groups birth_place_pattern).
Proof. cbn. repeat split; tauto. Qed.

(** ** The dispatcher on [pa_list] *)

Lemma search_table_calls_from_table
      (Act : Type) (matcher : Pattern -> list string -> option (list string))
      (call : Act -> Action) (table : list (Pattern * Act)) src act mat :
  In (act, mat) (fst (search_table matcher call table src)) ->
  exists pat, In (pat, act) table /\ matcher pat src = Some mat.
Proof.
  induction table as [| [p0 a0] table' IH]; simpl; intros Hin.
  - contradiction.
  - destruct (matcher p0 src) as [m0 |] eqn:E0.
    + simpl in Hin. destruct Hin as [Heq | []]. injection Heq as <- <-.
      exists p0. split; [left; reflexivity | exact E0].
    + destruct (IH Hin) as (pat & Hp & Hm). exists pat. split; [right; exact Hp | exact Hm].
Qed.

(** On [pa_list] itself an action never returns the empty list, and no two
    patterns match the same tokens; this is why the statements about the
    "No answers" sentinel and about the order of the entries are made for
    any table. *)
Lemma action_of_answers_non_empty w name mat answer :
  action_of w name mat = Ok answer -> answer <> [].
Proof.
  destruct name; cbn [action_of]; intros H.
  - unfold birth_date in H. destruct (get_birth_date w _); simpl in H; [| discriminate].
    injection H as <-. discriminate.
  - unfold polar_radius in H. destruct mat; [discriminate |].
    destruct (get_polar_radius w _); simpl in H; [| discriminate].
    injection H as <-. discriminate.
  - unfold population in H. destruct (get_population w _); simpl in H; [| discriminate].
    injection H as <-. discriminate.
  - unfold official_language in H.
    destruct (get_official_language w _); simpl in H; [| discriminate].
    injection H as <-. discriminate.
  - unfold birth_place in H. destruct (get_birth_place w _); simpl in H; [| discriminate].
    injection H as <-. discriminate.
  - discriminate.
Qed.

(** C2. When no pattern of [pa_list] matches the tokens, [search_pa_list]
    returns the one-element list [["I don't understand"]]: it does not raise,
    and no action is called. *)
Theorem search_pa_list_dont_understand w src :
  (forall pat act, In (pat, act) pa_list -> match_ pat src = None) ->
  search_pa_list w src = Ok ["I don't understand"]
  /\ fst (search_pa_list_calls w src) = [].
Proof.
  intros Hnone. unfold search_pa_list, search_pa_list_calls.
  rewrite search_table_unmatched by exact Hnone. split; reflexivity.
Qed.

(** C10. [pa_list] has exactly three entries, for the patterns
    "when was % born", "what is the polar radius of %" and "bye"; it is a
    constant, which neither the dispatcher nor the query loop can change; and
    for every world and every token list the only actions that
    [search_pa_list] can call are those three, never [population],
    [official_language] or [birth_place]. *)
Theorem pa_list_has_three_entries :
  pa_list =
    [ (["when"; "was"; WILD; "born"], BirthDate);
      (["what"; "is"; "the"; "polar"; "radius"; "of"; WILD], PolarRadius);
      (["bye"], ByeAction) ]
  /\ List.length pa_list = 3
  /\ forall w src name mat,
       In (name, mat) (fst (search_pa_list_calls w src)) ->
       (name = BirthDate \/ name = PolarRadius \/ name = ByeAction)
       /\ name <> Population /\ name <> OfficialLanguage /\ name <> BirthPlace.
Proof.
  split; [reflexivity |]. split; [reflexivity |].
  intros w src name mat Hin.
  apply search_table_calls_from_table in Hin as (pat & Hp & _).
  simpl in Hp.
  destruct Hp as [Hp | [Hp | [Hp | []]]]; injection Hp as _ <-;
    (split; [auto | repeat split; discriminate]).
Qed.

(** ** Instances *)

Lemma search_pa_list_dont_understand_witness :
  search_pa_list world_ada ["hello"; "there"] = Ok ["I don't understand"]
  /\ fst (search_pa_list_calls world_ada ["hello"; "there"]) = [].
Proof.
  apply (@search_pa_list_dont_understand world_ada ["hello"; "there"]).
  intros pat act Hin. simpl in Hin.
  destruct Hin as [Hin | [Hin | [Hin | []]]]; injection Hin as <- _; reflexivity.
Defined.

(** A table whose actions are canned answers. *)
Lemma dispatch_no_answers_sentinel_witness :
  exists act mat,
    fst (search_table match_ (fun (a : list string) _ => Ok a)
           [(["hi"; WILD], ["hello"]); ([WILD], [])] ["what"; "now"])
    = [(act, mat)]
    /\ ((fun (a : list string) (_ : list string) => Ok a) act mat = Ok [] ->
        snd (search_table match_ (fun (a : list string) _ => Ok a)
               [(["hi"; WILD], ["hello"]); ([WILD], [])] ["what"; "now"])
        = Ok ["No answers"])
    /\ (forall answer, answer <> [] ->
          (fun (a : list string) (_ : list string) => Ok a) act mat = Ok answer ->
          snd (search_table match_ (fun (a : list string) _ => Ok a)
                 [(["hi"; WILD], ["hello"]); ([WILD], [])] ["what"; "now"])
          = Ok answer).
Proof.
  apply (@dispatch_no_answers_sentinel (list string) match_
           (fun (a : list string) _ => Ok a)
           [(["hi"; WILD], ["hello"]); ([WILD], [])] ["what"; "now"]).
  exists [WILD], []. split.
  - right. left. reflexivity.
  - discriminate.
Defined.

Lemma dispatch_earliest_entry_wins_witness :
  exists k act mat,
    k <= 0 /\ k < 1
    /\ first_match match_ [([WILD], 0); (["bye"], 1)] ["bye"] k act mat
    /\ fst (search_table match_ (fun (n : nat) _ => Ok [])
              [([WILD], 0); (["bye"], 1)] ["bye"]) = [(act, mat)]
    /\ snd (search_table match_ (fun (n : nat) _ => Ok [])
              [([WILD], 0); (["bye"], 1)] ["bye"])
       = snd (search_table match_ (fun (n : nat) _ => Ok [])
                (firstn (S k) [([WILD], 0); (["bye"], 1)]) ["bye"]).
Proof.
  apply (@dispatch_earliest_entry_wins nat match_ (fun (n : nat) _ => Ok [])
           [([WILD], 0); (["bye"], 1)] ["bye"] 0 1 [WILD] 0 ["bye"] 1).
  - lia.
  - reflexivity.
  - discriminate.
  - reflexivity.
  - discriminate.
Defined.

Lemma match_without_wildcard_is_equality_witness :
  ((exists capture, match_ ["bye"] ["bye"] = Some capture) <-> ["bye"] = ["bye"])
  /\ (forall capture, match_ ["bye"] ["bye"] = Some capture -> capture = []).
Proof.
  apply (@match_without_wildcard_is_equality ["bye"] ["bye"]). reflexivity.
Defined.

Lemma wildcard_takes_at_least_one_token_witness :
  match_ ["when"; "was"; WILD; "born"] ["when"; "was"; "born"] = None
  /\ exists t mid rest capture',
       ["ada"; "lovelace"; "born"] = (t :: mid) ++ rest
       /\ match_ ["born"] rest = Some capture'
       /\ ["ada"; "lovelace"] = (t :: mid) ++ capture'.
Proof.
  split; [reflexivity |].
  apply (proj2 (proj2 (@wildcard_takes_at_least_one_token ["born"]
                         ["ada"; "lovelace"; "born"]))).
  reflexivity.
Defined.

(** ** [clean_text] *)

Lemma no_adjacent_cons c x s :
  no_adjacent c (String x s) =
    negb (Ascii.eqb x c && starts_with c s) && no_adjacent c s.
Proof.
  destruct s as [| y s']; simpl.
  - rewrite andb_false_r. reflexivity.
  - reflexivity.
Qed.

Lemma sub_runs_from_shape c :
  forall s b,
    no_adjacent c (sub_runs_from b c s) = true
    /\ (b = true -> starts_with c (sub_runs_from b c s) = false).
Proof.
  induction s as [| x rest IH]; intros b.
  - split; reflexivity.
  - cbn [sub_runs_from]. destruct (Ascii.eqb_spec x c) as [-> | Hne].
    + destruct b.
      * apply IH.
      * destruct (IH true) as [Hadj Hhead]. split; [| discriminate].
        rewrite no_adjacent_cons, Hadj, (Hhead eq_refl), andb_false_r. reflexivity.
    + destruct (IH false) as [Hadj _]. split.
      * rewrite no_adjacent_cons, Hadj.
        destruct (Ascii.eqb_spec x c); [contradiction | reflexivity].
      * intros _. simpl. destruct (Ascii.eqb_spec x c); [contradiction | reflexivity].
Qed.

Lemma starts_with_sub_runs c d s :
  d <> c -> starts_with d (sub_runs_from false c s) = starts_with d s.
Proof.
  intros Hdc. destruct s as [| x rest]; [reflexivity |].
  cbn [sub_runs_from]. destruct (Ascii.eqb_spec x c) as [-> | Hne]; reflexivity.
Qed.

Lemma no_adjacent_sub_runs_other c d :
  d <> c ->
  forall s b, no_adjacent d s = true -> no_adjacent d (sub_runs_from b c s) = true.
Proof.
  intros Hdc. induction s as [| x rest IH]; intros b H.
  - reflexivity.
  - rewrite no_adjacent_cons in H. apply andb_true_iff in H as [Hhead Hrest].
    cbn [sub_runs_from]. destruct (Ascii.eqb_spec x c) as [-> | Hne].
    + destruct b.
      * apply IH. exact Hrest.
      * rewrite no_adjacent_cons, (IH true Hrest).
        destruct (Ascii.eqb_spec c d); [congruence | reflexivity].
    + rewrite no_adjacent_cons, (IH false Hrest), starts_with_sub_runs by exact Hdc.
      rewrite Hhead. reflexivity.
Qed.

Lemma all_chars_sub_runs p c :
  forall s b, all_chars p s = true -> all_chars p (sub_runs_from b c s) = true.
Proof.
  induction s as [| x rest IH]; intros b H.
  - reflexivity.
  - simpl in H. apply andb_true_iff in H as [Hx Hrest].
    cbn [sub_runs_from]. destruct (Ascii.eqb_spec x c) as [<- | Hne].
    + destruct b; [apply IH; exact Hrest |].
      simpl. rewrite Hx. apply IH. exact Hrest.
    + simpl. rewrite Hx. apply IH. exact Hrest.
Qed.

Lemma keep_chars_sub_runs q c :
  q c = false ->
  forall s b, keep_chars q (sub_runs_from b c s) = keep_chars q s.
Proof.
  intros Hq. induction s as [| x rest IH]; intros b.
  - reflexivity.
  - cbn [sub_runs_from]. destruct (Ascii.eqb_spec x c) as [-> | Hne].
    + destruct b; simpl; rewrite Hq; apply IH.
    + simpl. rewrite IH. reflexivity.
Qed.

Lemma only_ascii_cons c rest :
  only_ascii (String c rest) =
    String (if is_printable c then c else space) (only_ascii rest).
Proof. reflexivity. Qed.

Lemma space_printable : is_printable space = true.
Proof. reflexivity. Qed.

Lemma all_chars_only_ascii text : all_chars is_printable (only_ascii text) = true.
Proof.
  induction text as [| c rest IH].
  - reflexivity.
  - rewrite only_ascii_cons. cbn [all_chars]. rewrite IH, andb_true_r.
    destruct (is_printable c) eqn:E; [exact E | exact space_printable].
Qed.

Lemma keep_chars_only_ascii text :
  keep_chars (fun c => negb (is_blank c)) (only_ascii text)
  = keep_chars (fun c => is_printable c && negb (is_blank c)) text.
Proof.
  induction text as [| c rest IH].
  - reflexivity.
  - rewrite only_ascii_cons. cbn [keep_chars]. rewrite IH.
    destruct (is_printable c); reflexivity.
Qed.

Lemma only_ascii_app a b :
  only_ascii (a ++ b)%string = (only_ascii a ++ only_ascii b)%string.
Proof.
  induction a as [| c a' IH]; [reflexivity |].
  cbn [append]. rewrite !only_ascii_cons, IH. reflexivity.
Qed.

(** [sub_runs] against the run-by-run description. *)
Lemma sub_runs_from_runs c :
  forall s,
    sub_runs_from false c s = write_runs c (runs s)
    /\ sub_runs_from true c s =
         match runs s with
         | (y, n) :: tl => if Ascii.eqb y c then write_runs c tl
                           else write_runs c ((y, n) :: tl)
         | [] => EmptyString
         end.
Proof.
  induction s as [| x rest [IHf IHt]].
  - split; reflexivity.
  - cbn [sub_runs_from runs]. destruct (Ascii.eqb x c) eqn:Exc.
    + apply Ascii.eqb_eq in Exc as ->. rewrite IHt.
      destruct (runs rest) as [| [y n] tl].
      * cbn [write_runs append]. rewrite Ascii.eqb_refl. split; reflexivity.
      * destruct (Ascii.eqb c y) eqn:Ecy.
        -- apply Ascii.eqb_eq in Ecy as <-.
           cbn [write_runs append]. rewrite Ascii.eqb_refl. split; reflexivity.
        -- rewrite Ascii.eqb_sym in Ecy. rewrite Ecy.
           cbn [write_runs append]. rewrite Ecy, Ascii.eqb_refl. split; reflexivity.
    + rewrite IHf. destruct (runs rest) as [| [y n] tl].
      * cbn [write_runs append repeat_char]. rewrite Exc. split; reflexivity.
      * destruct (Ascii.eqb x y) eqn:Exy.
        -- apply Ascii.eqb_eq in Exy as <-.
           rewrite Exc. cbn [write_runs append repeat_char]. rewrite Exc.
           split; reflexivity.
        -- rewrite Exc. cbn [write_runs append repeat_char]. rewrite Exc.
           split; reflexivity.
Qed.

Lemma sub_runs_collapse c s : sub_runs c s = collapse_runs c s.
Proof. apply sub_runs_from_runs. Qed.

(** C7, as the specification words it, fails: a character that is not
    printable is not stripped, a space takes its place.  Between "a" and "b"
    the character of code 1 leaves a space that stripping would not leave. *)
Lemma clean_text_does_not_strip :
  clean_text ("a" ++ Py.chr 1 ++ "b")%string = "a b"
  /\ clean_text_spec ("a" ++ Py.chr 1 ++ "b")%string = "ab"
  /\ clean_text ("a" ++ Py.chr 1 ++ "b")%string
     <> clean_text_spec ("a" ++ Py.chr 1 ++ "b")%string.
Proof. repeat split. discriminate. Qed.

(** The difference shows in the answers: with a no-break space (code 160) as
    thousands separator, the radius read from the cleaned text is "345", where
    the stripped text would give "12345". *)
Lemma clean_text_space_changes_answer :
  Re.search polar_radius_pattern
    (clean_text ("Polar radius 12" ++ Py.chr 160 ++ "345 km")%string)
  = Some [("radius", "345")]
  /\ Re.search polar_radius_pattern
       (clean_text_spec ("Polar radius 12" ++ Py.chr 160 ++ "345 km")%string)
     = Some [("radius", "12345")].
Proof. split; reflexivity. Qed.

(** C7, amended.  [clean_text] puts a space in the place of every character
    that is not printable, then writes every run of spaces as one space and
    then every run of newlines as one newline.  So the result holds printable
    characters only, has no two spaces and no two newlines side by side, and
    keeps the printable characters other than spaces and newlines, in
    order. *)
Theorem clean_text_replaces_and_collapses text :
  clean_text text
  = collapse_runs newline (collapse_runs space (only_ascii text))
  /\ (forall before c after,
         is_printable c = false ->
         clean_text (before ++ String c after)
         = clean_text (before ++ String space after))
  /\ all_chars is_printable (clean_text text) = true
  /\ no_adjacent space (clean_text text) = true
  /\ no_adjacent newline (clean_text text) = true
  /\ keep_chars (fun c => negb (is_blank c)) (clean_text text)
     = keep_chars (fun c => is_printable c && negb (is_blank c)) text.
Proof.
  unfold clean_text. repeat split.
  - rewrite !sub_runs_collapse. reflexivity.
  - intros before c after Hc.
    rewrite !only_ascii_app, !only_ascii_cons, Hc, space_printable. reflexivity.
  - unfold sub_runs. apply all_chars_sub_runs, all_chars_sub_runs, all_chars_only_ascii.
  - unfold sub_runs. apply no_adjacent_sub_runs_other; [discriminate |].
    apply sub_runs_from_shape.
  - unfold sub_runs. apply sub_runs_from_shape.
  - unfold sub_runs. rewrite !keep_chars_sub_runs by reflexivity.
    apply keep_chars_only_ascii.
Qed.

Lemma clean_text_replaces_and_collapses_witness :
  clean_text ("a" ++ String (ascii_of_nat 1) "b")
  = clean_text ("a" ++ String space "b").
Proof.
  apply (proj1 (proj2 (@clean_text_replaces_and_collapses EmptyString))).
  reflexivity.
Defined.

(** ** Tokens *)

Lemma all_chars_app p a b :
  all_chars p (a ++ b)%string = all_chars p a && all_chars p b.
Proof.
  induction a as [| c a' IH]; simpl.
  - reflexivity.
  - rewrite IH, andb_assoc. reflexivity.
Qed.


Lemma split_from_tokens (p : ascii -> bool) :
  forall s word,
    all_chars p word = true ->
    all_chars (fun c => Py.isspace c || p c) s = true ->
    Forall (fun tok => Py.is_empty tok = false /\ all_chars p tok = true)
           (Py.split_from word s).
Proof.
  induction s as [| c s' IH]; intros word Hword Hs; cbn [Py.split_from].
  - destruct (Py.is_empty word) eqn:E; constructor; [split; assumption | constructor].
  - cbn [all_chars] in Hs. apply andb_true_iff in Hs as [Hc Hs'].
    destruct (Py.isspace c) eqn:Ec.
    + destruct (Py.is_empty word) eqn:E.
      * apply IH; [reflexivity | exact Hs'].
      * constructor; [split; assumption |]. apply IH; [reflexivity | exact Hs'].
    + apply IH; [| exact Hs'].
      rewrite all_chars_app, Hword. simpl. simpl in Hc. rewrite Hc. reflexivity.
Qed.


Lemma append_assoc_char word c rest :
  ((word ++ String c EmptyString) ++ rest = word ++ String c rest)%string.
Proof.
  induction word as [| d word IH]; simpl; [reflexivity | rewrite IH; reflexivity].
Qed.


Lemma lower_char_normal c :
  Ascii.eqb c "?" = false ->
  Py.isspace (Py.lower_char c)
  || (negb (Py.isspace (Py.lower_char c))
      && negb (Ascii.eqb (Py.lower_char c) "?")
      && Ascii.eqb (Py.lower_char (Py.lower_char c)) (Py.lower_char c)) = true.
Proof.
  destruct c as [[] [] [] [] [] [] [] []]; intros H;
    first [ reflexivity | discriminate H ].
Qed.

Lemma remove_char_lower_normal text :
  all_chars (fun c => Py.isspace c
                      || (negb (Py.isspace c) && negb (Ascii.eqb c "?")
                          && Ascii.eqb (Py.lower_char c) c))
            (Py.lower (Py.remove_char "?" text)) = true.
Proof.
  induction text as [| c rest IH]; cbn [Py.remove_char].
  - reflexivity.
  - destruct (Ascii.eqb c "?") eqn:E.
    + exact IH.
    + cbn [Py.lower all_chars]. rewrite IH, andb_true_r.
      apply lower_char_normal. exact E.
Qed.

Lemma tokenize_normal text :
  Forall (fun tok => normal_token tok = true) (tokenize text).
Proof.
  unfold tokenize, Py.split.
  eapply Forall_impl;
    [| apply split_from_tokens; [reflexivity | apply remove_char_lower_normal]].
  intros tok [Hne Hall]. unfold normal_token. rewrite Hne, Hall. reflexivity.
Qed.

(** ** The query loop *)



Lemma while_true_line_raise w text input out e :
  search_pa_list w (tokenize text) = Raise e ->
  while_true w (Line text :: input) out
  = (out ++ [Blank; Prompt], if caught e then Break else Uncaught e).
Proof. intros H. cbn [while_true]. rewrite H. reflexivity. Qed.

Lemma while_true_lines w :
  forall texts input out,
    forallb (dispatch_returns w) texts = true ->
    while_true w (map Line texts ++ input) out
    = while_true w input (out ++ transcript w texts).
Proof.
  induction texts as [| text texts' IH]; intros input out Hall.
  - simpl. rewrite app_nil_r. reflexivity.
  - cbn [forallb] in Hall. apply andb_true_iff in Hall as [Hret Hall'].
    cbn [map app while_true]. unfold transcript. cbn [flat_map].
    fold (transcript w texts'). unfold answers_of.
    unfold dispatch_returns in Hret.
    destruct (search_pa_list w (tokenize text)) as [answers | e]; [| discriminate].
    rewrite (IH input _ Hall'). rewrite <- !app_assoc. reflexivity.
Qed.

Lemma transcript_no_farewell w texts : filter is_farewell (transcript w texts) = [].
Proof.
  induction texts as [| text texts' IH]; [reflexivity |].
  unfold transcript. cbn [flat_map]. fold (transcript w texts').
  rewrite !filter_app, IH. cbn [filter is_farewell app].
  induction (answers_of w text) as [| a l IHl]; [reflexivity | exact IHl].
Qed.


Lemma string_append_empty (s : string) : (s ++ EmptyString)%string = s.
Proof. induction s as [| c s IH]; simpl; [reflexivity | rewrite IH; reflexivity]. Qed.





(** The patterns of [pa_list] exclude one another. *)
Lemma match_head_literal p pat src mat :
  is_wildcard p = false ->
  match_ (p :: pat) src = Some mat -> exists rest, src = p :: rest.
Proof.
  intros Hp H. rewrite match_literal_unfold in H by exact Hp.
  destruct src as [| t rest]; [discriminate |].
  destruct (String.eqb_spec p t) as [-> |]; [| discriminate].
  exists rest. reflexivity.
Qed.

Lemma match_other_head p q pat rest :
  is_wildcard p = false -> String.eqb p q = false ->
  match_ (p :: pat) (q :: rest) = None.
Proof.
  intros Hp Hpq. rewrite match_literal_unfold by exact Hp. rewrite Hpq. reflexivity.
Qed.

Lemma pa_list_dispatch w pat name src mat :
  In (pat, name) pa_list ->
  match_ pat src = Some mat ->
  search_pa_list_calls w src
  = ([(name, mat)],
     answer <- action_of w name mat ;;
     Ok (match answer with [] => no_answers | _ :: _ => answer end)).
Proof.
  intros Hin Hm. unfold search_pa_list_calls.
  change pa_list with
    [ ("when" :: ["was"; WILD; "born"], BirthDate);
      ("what" :: ["is"; "the"; "polar"; "radius"; "of"; WILD], PolarRadius);
      ("bye" :: [], ByeAction) ] in *.
  destruct Hin as [Hin | [Hin | [Hin | []]]]; injection Hin as <- <-;
    pose proof Hm as Hhead;
    (apply match_head_literal in Hhead; [| reflexivity]);
    destruct Hhead as [rest ->];
    cbn [search_table];
    rewrite ?(@match_other_head "when" "what") by reflexivity;
    rewrite ?(@match_other_head "when" "bye") by reflexivity;
    rewrite ?(@match_other_head "what" "bye") by reflexivity;
    rewrite Hm; reflexivity.
Qed.

Lemma pa_list_patterns_exclusive src pat1 name1 pat2 name2 :
  In (pat1, name1) pa_list -> In (pat2, name2) pa_list ->
  match_ pat1 src <> None -> match_ pat2 src <> None ->
  name1 = name2.
Proof.
  intros Hin1 Hin2 Hm1 Hm2.
  destruct (match_ pat1 src) as [mat1 |] eqn:E1; [| contradiction].
  destruct (match_ pat2 src) as [mat2 |] eqn:E2; [| contradiction].
  pose proof (@pa_list_dispatch world_no_infobox _ _ _ _ Hin1 E1) as H1.
  pose proof (@pa_list_dispatch world_no_infobox _ _ _ _ Hin2 E2) as H2.
  rewrite H1 in H2. injection H2 as -> _. reflexivity.
Qed.

Lemma caught_extraction_failure e : extraction_failure e = true -> caught e = false.
Proof. destruct e; simpl; congruence. Qed.

(** C1, as the specification words it, fails: nothing catches the exception
    of a failed extraction.  With a page without infobox, and with an infobox
    without the "Born" field, the exception leaves [search_pa_list] and then
    [query_loop]; no line is printed for the query and the next line is not
    read. *)
Lemma extraction_failure_is_not_caught :
  search_pa_list_calls world_no_infobox (tokenize "When was Ada Lovelace born?")
  = ([(BirthDate, ["ada"; "lovelace"])], Raise (LookupError "Page has no infobox"))
  /\ query_loop world_no_infobox
       [Line "When was Ada Lovelace born?"; Line "hello"; Line "bye"]
     = ([Welcome; Blank; Prompt], Some (LookupError "Page has no infobox"))
  /\ search_pa_list_calls world_no_born (tokenize "When was Ada Lovelace born?")
     = ([(BirthDate, ["ada"; "lovelace"])],
        Raise (AttributeError
                 "Page infobox has no birth information (at least none in xxxx-xx-xx format)"))
  /\ query_loop world_no_born
       [Line "When was Ada Lovelace born?"; Line "hello"; Line "bye"]
     = ([Welcome; Blank; Prompt],
        Some (AttributeError
                "Page infobox has no birth information (at least none in xxxx-xx-xx format)")).
Proof. repeat split. Qed.

(** C1, amended.  When the action of the matched entry raises the exception of
    a failed extraction ([LookupError] of [get_first_infobox_text],
    [AttributeError] of [get_match]), the exception leaves [search_pa_list]
    and [query_loop] uncaught: after the rounds of the earlier lines the loop
    writes the blank line and the prompt of this round and nothing more, no
    farewell either, and the rest of the input is not read. *)
Theorem extraction_failure_escapes_query_loop w texts text input pat name mat e :
  forallb (dispatch_returns w) texts = true ->
  In (pat, name) pa_list ->
  match_ pat (tokenize text) = Some mat ->
  action_of w name mat = Raise e ->
  extraction_failure e = true ->
  search_pa_list w (tokenize text) = Raise e
  /\ query_loop w (map Line texts ++ Line text :: input)
     = ([Welcome] ++ transcript w texts ++ [Blank; Prompt], Some e)
  /\ farewells (fst (query_loop w (map Line texts ++ Line text :: input))) = 0.
Proof.
  intros Hall Hin Hm Hact He.
  assert (Hs : search_pa_list w (tokenize text) = Raise e).
  { unfold search_pa_list. erewrite pa_list_dispatch by eassumption.
    cbn [snd]. rewrite Hact. reflexivity. }
  assert (Hq : query_loop w (map Line texts ++ Line text :: input)
               = ([Welcome] ++ transcript w texts ++ [Blank; Prompt], Some e)).
  { unfold query_loop. rewrite while_true_lines by exact Hall.
    erewrite while_true_line_raise by exact Hs.
    rewrite caught_extraction_failure by exact He.
    rewrite <- app_assoc. reflexivity. }
  split; [exact Hs |]. split; [exact Hq |].
  rewrite Hq. unfold farewells. cbn [fst].
  rewrite !filter_app, transcript_no_farewell. reflexivity.
Qed.

Lemma extraction_failure_escapes_query_loop_witness :
  search_pa_list world_no_born (tokenize "What is the polar radius of Mars?")
  = Raise (AttributeError "Page infobox has no polar radius information")
  /\ query_loop world_no_born
       (map Line ["hello"] ++ Line "What is the polar radius of Mars?" :: [Line "bye"])
     = ([Welcome] ++ transcript world_no_born ["hello"] ++ [Blank; Prompt],
        Some (AttributeError "Page infobox has no polar radius information"))
  /\ farewells (fst (query_loop world_no_born
                       (map Line ["hello"]
                        ++ Line "What is the polar radius of Mars?" :: [Line "bye"])))
     = 0.
Proof.
  apply (@extraction_failure_escapes_query_loop world_no_born ["hello"]
           "What is the polar radius of Mars?" [Line "bye"]
           ["what"; "is"; "the"; "polar"; "radius"; "of"; WILD] PolarRadius ["mars"]
           (AttributeError "Page infobox has no polar radius information")).
  - reflexivity.
  - right. left. reflexivity.
  - reflexivity.
  - reflexivity.
  - reflexivity.
Defined.




(** An [EOFError] that an action raises is caught like the one of [input]:
    the loop ends with the farewell. *)
Lemma caught_exception_of_an_action :
  search_pa_list world_eof (tokenize "When was Ada Lovelace born?") = Raise EOFError
  /\ query_loop world_eof [Line "When was Ada Lovelace born?"; Line "hello"]
     = ([Welcome; Blank; Prompt; Farewell], None).
Proof. split; reflexivity. Qed.


(** * Further properties *)

(** ** The regular expression engine is sound for the groups *)

Lemma length_app (u v : string) :
  String.length (u ++ v) = String.length u + String.length v.
Proof.
  induction u as [| c u IH]; simpl; [reflexivity | rewrite IH; reflexivity].
Qed.

Lemma consumed_app u s' : Re.consumed (u ++ s') s' = u.
Proof.
  unfold Re.consumed. rewrite length_app.
  replace (String.length u + String.length s' - String.length s')
    with (String.length u) by lia.
  induction u as [| c u IH]; simpl.
  - destruct s'; reflexivity.
  - rewrite IH. reflexivity.
Qed.

Lemma string_app_assoc (a b c : string) :
  ((a ++ b) ++ c = a ++ (b ++ c))%string.
Proof.
  induction a as [| x a IH]; simpl; [reflexivity | rewrite IH; reflexivity].
Qed.

Lemma groups_sound_cons top g name body text :
  In (name, body) (groups_in top) -> lang body text ->
  groups_sound top g -> groups_sound top ((name, text) :: g).
Proof.
  intros Hin Hlang Hg name' text' H. simpl in H.
  destruct (String.eqb_spec name name') as [<- | Hne].
  - injection H as <-. exists body. split; assumption.
  - apply Hg. exact H.
Qed.

Lemma run_sound (T : Type) (top : Re.regex) :
  forall r,
    incl (groups_in r) (groups_in top) ->
    forall s g (k : string -> Re.Match -> option T) x,
      groups_sound top g ->
      Re.run r s g k = Some x ->
      exists u s' g',
        s = (u ++ s')%string /\ lang r u /\ groups_sound top g'
        /\ k s' g' = Some x.
Proof.
  induction r as [| cs | r1 IH1 r2 IH2 | greedy cs | r1 IH1 | gname r1 IH1];
    intros Hincl s g k x Hg H; cbn [Re.run groups_in lang] in *.
  - exists EmptyString, s, g. repeat split; assumption.
  - destruct s as [| c s']; [discriminate |].
    destruct (Re.fits cs c) eqn:Ec; [| discriminate].
    exists (String c EmptyString), s', g. repeat split; try assumption.
    exists c. split; [reflexivity | exact Ec].
  - apply IH1 in H as (u1 & s1 & g1 & -> & Hl1 & Hg1 & H);
      [| intros e He; apply Hincl, in_or_app; left; exact He | exact Hg].
    apply IH2 in H as (u2 & s2 & g2 & -> & Hl2 & Hg2 & H);
      [| intros e He; apply Hincl, in_or_app; right; exact He | exact Hg1].
    exists (u1 ++ u2)%string, s2, g2. split; [| split; [| split; assumption]].
    + symmetry. apply string_app_assoc.
    + exists u1, u2. repeat split; assumption.
  - assert (Hk : exists u s', s = (u ++ s')%string
                              /\ all_chars (Re.fits cs) u = true
                              /\ k s' g = Some x).
    { destruct greedy.
      - induction s as [| c s' IHs].
        + exists EmptyString, EmptyString. repeat split. exact H.
        + destruct (Re.fits cs c) eqn:Ec;
            [| exists EmptyString, (String c s'); repeat split; exact H].
          match type of H with
          | match ?m with _ => _ end = _ => destruct m as [y |] eqn:E
          end.
          * injection H as ->. destruct (IHs eq_refl) as (u & s2 & -> & Hu & Hk).
            exists (String c u), s2. repeat split; [| exact Hk].
            simpl. rewrite Ec, Hu. reflexivity.
          * exists EmptyString, (String c s'). repeat split. exact H.
      - induction s as [| c s' IHs].
        + destruct (k EmptyString g) eqn:E; [| discriminate].
          exists EmptyString, EmptyString. repeat split. rewrite E. exact H.
        + destruct (k (String c s') g) eqn:E.
          * exists EmptyString, (String c s'). repeat split. rewrite E. exact H.
          * destruct (Re.fits cs c) eqn:Ec; [| discriminate].
            destruct (IHs H) as (u & s2 & -> & Hu & Hk).
            exists (String c u), s2. repeat split; [| exact Hk].
            simpl. rewrite Ec, Hu. reflexivity. }
    destruct Hk as (u & s' & -> & Hu & Hk).
    exists u, s', g. repeat split; assumption.
  - destruct (Re.run r1 s g k) as [y |] eqn:E.
    + injection H as ->.
      apply IH1 in E as (u & s1 & g1 & -> & Hl & Hg1 & E); [| exact Hincl | exact Hg].
      exists u, s1, g1. repeat split; try assumption. right. exact Hl.
    + exists EmptyString, s, g. repeat split; try assumption. left. reflexivity.
  - apply IH1 in H as (u & s1 & g1 & -> & Hl & Hg1 & H);
      [| intros e He; apply Hincl; right; exact He | exact Hg].
    rewrite consumed_app in H.
    exists u, s1, ((gname, u) :: g1). repeat split; try assumption.
    apply groups_sound_cons with (body := r1); try assumption.
    apply Hincl. left. reflexivity.
Qed.

Lemma search_sound r :
  forall text m, Re.search r text = Some m -> groups_sound r m.
Proof.
  assert (Hrun : forall text m,
             Re.run r text [] (fun _ g => Some g) = Some m -> groups_sound r m).
  { intros text m H.
    apply (@run_sound _ r) in H as (u & s' & g' & _ & _ & Hg & H).
    - injection H as <-. exact Hg.
    - apply incl_refl.
    - intros name t Hn. discriminate. }
  induction text as [| c text' IH]; intros m H; cbn [Re.search] in H.
  - destruct (Re.run r EmptyString [] (fun _ g => Some g)) as [m' |] eqn:E;
      [| discriminate].
    injection H as ->. exact (Hrun _ _ E).
  - destruct (Re.run r (String c text') [] (fun _ g => Some g)) as [m' |] eqn:E.
    + injection H as ->. exact (Hrun _ _ E).
    + exact (IH _ H).
Qed.

(** The text that a match gives for the only group called [name] is a text
    that the body of the group can take. *)
Lemma search_group_lang r text m name body :
  Re.search r text = Some m ->
  In name (Re.bound_groups r) ->
  (forall body', In (name, body') (groups_in r) -> body' = body) ->
  lang body (Re.group m name).
Proof.
  intros Hs Hin Honly.
  pose proof (@search_binds_groups r text m name Hs Hin) as Hopt.
  apply (@search_sound r text m Hs) in Hopt as (body' & Hb & Hl).
  rewrite <- (Honly body' Hb). exact Hl.
Qed.

(** ** What the groups of the five patterns hold *)

Lemma fits_digit c : Re.fits Re.Digit c = true -> Re.is_digit c = true.
Proof. destruct c as [[] [] [] [] [] [] [] []]; intros H; first [reflexivity | discriminate H]. Qed.

Lemma fits_dash c : Re.fits (Re.Lit "-") c = true -> is_dash c = true.
Proof. destruct c as [[] [] [] [] [] [] [] []]; intros H; first [reflexivity | discriminate H]. Qed.

Lemma fits_radius_char c :
  Re.fits (Re.Either Re.Digit (Re.Either (Re.Lit ",") (Re.Lit "."))) c
  = is_radius_char c.
Proof. destruct c as [[] [] [] [] [] [] [] []]; reflexivity. Qed.

Lemma fits_population_char c :
  Re.fits (Re.Either Re.Digit (Re.Lit ",")) c = is_population_char c.
Proof. destruct c as [[] [] [] [] [] [] [] []]; reflexivity. Qed.

Lemma fits_language_char c :
  Re.fits (Re.Either Re.Word (Re.Either Re.Space
             (Re.Either (Re.Lit ",") (Re.Either (Re.Lit "/") (Re.Lit "-"))))) c
  = is_language_char c.
Proof. destruct c as [[] [] [] [] [] [] [] []]; reflexivity. Qed.

Lemma fits_place_char c :
  Re.fits (Re.Either (Re.Range "A" "Z") (Re.Either (Re.Range "a" "z") Re.Space)) c
  = is_place_char c.
Proof. destruct c as [[] [] [] [] [] [] [] []]; reflexivity. Qed.

Lemma all_chars_ext p q s :
  (forall c, p c = q c) -> all_chars p s = all_chars q s.
Proof.
  intros E. induction s as [| c s IH]; simpl; [reflexivity | rewrite E, IH; reflexivity].
Qed.

Lemma lang_plus cs u :
  lang (Re.plus cs) u ->
  Py.is_empty u = false /\ all_chars (Re.fits cs) u = true.
Proof.
  intros (u1 & u2 & -> & (c & -> & Hc) & Hu2). cbn in Hu2. simpl.
  rewrite Hc, Hu2. split; reflexivity.
Qed.

Ltac open_lang H :=
  cbn [lang Re.seq Re.times Re.lit] in H;
  repeat match goal with
         | H' : exists _, _ |- _ => destruct H' as [? H']
         | H' : _ /\ _ |- _ => destruct H' as [? H']
         end;
  subst.

Lemma birth_group_iso text m :
  Re.search birth_date_pattern text = Some m ->
  has_shape iso_date_shape (Re.group m "birth") = true.
Proof.
  intros Hs.
  assert (H : lang (Re.seq [ Re.times 4 Re.Digit; Re.lit "-";
                             Re.times 2 Re.Digit; Re.lit "-";
                             Re.times 2 Re.Digit ])
                   (Re.group m "birth")).
  { apply (@search_group_lang birth_date_pattern text m "birth"); [exact Hs | | ].
    - cbn. tauto.
    - intros body' Hin. cbn in Hin.
      destruct Hin as [Hin | []]. injection Hin as <-. reflexivity. }
  revert H. generalize (Re.group m "birth") as answer. intros answer H.
  open_lang H.
  repeat match goal with
         | Hd : Re.fits Re.Digit _ = true |- _ => apply fits_digit in Hd
         | Hd : Re.fits (Re.Lit _) _ = true |- _ => apply fits_dash in Hd
         end.
  cbn [append has_shape iso_date_shape].
  repeat match goal with
         | Hd : _ = true |- _ => rewrite Hd; clear Hd
         end.
  reflexivity.
Qed.

Lemma plus_group_chars pat cs gname text m :
  Re.search pat text = Some m ->
  In gname (Re.bound_groups pat) ->
  (forall body', In (gname, body') (groups_in pat) -> body' = Re.plus cs) ->
  Py.is_empty (Re.group m gname) = false
  /\ all_chars (Re.fits cs) (Re.group m gname) = true.
Proof.
  intros Hs Hin Honly. apply lang_plus.
  apply (@search_group_lang pat text m gname); assumption.
Qed.

Lemma radius_group_chars text m :
  Re.search polar_radius_pattern text = Some m ->
  Py.is_empty (Re.group m "radius") = false
  /\ all_chars is_radius_char (Re.group m "radius") = true.
Proof.
  intros Hs. rewrite <- (all_chars_ext _ _ _ fits_radius_char).
  apply (@plus_group_chars polar_radius_pattern _ "radius" text m Hs).
  - cbn. tauto.
  - intros body' Hin. cbn in Hin. destruct Hin as [Hin | []].
    injection Hin as <-. reflexivity.
Qed.

Lemma population_group_chars text m :
  Re.search population_pattern text = Some m ->
  Py.is_empty (Re.group m "population") = false
  /\ all_chars is_population_char (Re.group m "population") = true.
Proof.
  intros Hs. rewrite <- (all_chars_ext _ _ _ fits_population_char).
  apply (@plus_group_chars population_pattern _ "population" text m Hs).
  - cbn. tauto.
  - intros body' Hin. cbn in Hin. destruct Hin as [Hin | []].
    injection Hin as <-. reflexivity.
Qed.

Lemma languages_group_chars text m :
  Re.search official_language_pattern text = Some m ->
  Py.is_empty (Re.group m "languages") = false
  /\ all_chars is_language_char (Re.group m "languages") = true.
Proof.
  intros Hs. rewrite <- (all_chars_ext _ _ _ fits_language_char).
  apply (@plus_group_chars official_language_pattern _ "languages" text m Hs).
  - cbn. tauto.
  - intros body' Hin. cbn in Hin. destruct Hin as [Hin | []].
    injection Hin as <-. reflexivity.
Qed.

Lemma place_groups_chars text m :
  Re.search birth_place_pattern text = Some m ->
  all_chars is_place_char (Re.group m "1") = true
  /\ all_chars is_place_char (Re.group m "2") = true.
Proof.
  intros Hs. rewrite <- !(all_chars_ext _ _ _ fits_place_char). split.
  - apply (@plus_group_chars birth_place_pattern _ "1" text m Hs).
    + cbn. tauto.
    + intros body' Hin. cbn in Hin. destruct Hin as [Hin | [Hin | []]].
      * injection Hin as <-. reflexivity.
      * discriminate Hin.
  - apply (@plus_group_chars birth_place_pattern _ "2" text m Hs).
    + cbn. tauto.
    + intros body' Hin. cbn in Hin. destruct Hin as [Hin | [Hin | []]].
      * discriminate Hin.
      * injection Hin as <-. reflexivity.
Qed.

(** ** [str.strip] *)

Lemma all_chars_lstrip p s : all_chars p s = true -> all_chars p (Py.lstrip s) = true.
Proof.
  induction s as [| c s IH]; intros H; [reflexivity |].
  cbn [Py.lstrip]. destruct (Py.isspace c); [| exact H].
  simpl in H. apply andb_true_iff in H as [_ H]. apply IH. exact H.
Qed.

Lemma all_chars_rstrip p s : all_chars p s = true -> all_chars p (Py.rstrip s) = true.
Proof.
  induction s as [| c s IH]; intros H; [reflexivity |].
  simpl in H. apply andb_true_iff in H as [Hc H].
  cbn [Py.rstrip]. destruct (Py.is_empty (Py.rstrip s) && Py.isspace c); [reflexivity |].
  simpl. rewrite Hc. apply IH. exact H.
Qed.

Lemma first_char_lstrip s c :
  first_char (Py.lstrip s) = Some c -> Py.isspace c = false.
Proof.
  induction s as [| d s IH]; [discriminate |].
  cbn [Py.lstrip]. destruct (Py.isspace d) eqn:E; [exact IH |].
  simpl. intros H. injection H as <-. exact E.
Qed.

Lemma first_char_rstrip s c :
  first_char (Py.rstrip s) = Some c -> first_char s = Some c.
Proof.
  destruct s as [| d s]; [discriminate |].
  cbn [Py.rstrip]. destruct (Py.is_empty (Py.rstrip s) && Py.isspace d); [discriminate |].
  intros H. exact H.
Qed.

Lemma last_char_rstrip s c :
  last_char (Py.rstrip s) = Some c -> Py.isspace c = false.
Proof.
  induction s as [| d s IH]; [discriminate |].
  cbn [Py.rstrip]. destruct (Py.rstrip s) as [| e t] eqn:E.
  - simpl. destruct (Py.isspace d) eqn:Ed; [discriminate |].
    simpl. intros H. injection H as <-. exact Ed.
  - simpl. exact IH.
Qed.

Lemma strip_trimmed s : trimmed (Py.strip s) = true.
Proof.
  unfold trimmed, Py.strip.
  destruct (first_char (Py.rstrip (Py.lstrip s))) as [a |] eqn:Ea; [| reflexivity].
  destruct (last_char (Py.rstrip (Py.lstrip s))) as [b |] eqn:Eb; [| reflexivity].
  apply first_char_rstrip, first_char_lstrip in Ea.
  apply last_char_rstrip in Eb. rewrite Ea, Eb. reflexivity.
Qed.

Lemma all_chars_strip p s : all_chars p s = true -> all_chars p (Py.strip s) = true.
Proof. intros H. apply all_chars_rstrip, all_chars_lstrip. exact H. Qed.

(** ** The extractors *)

Lemma bind_ok (A B : Type) (m : res A) (f : A -> res B) b :
  bind m f = Ok b -> exists a, m = Ok a /\ f a = Ok b.
Proof. destruct m as [a | e]; simpl; [| discriminate]. intros H. exists a. split; [reflexivity | exact H]. Qed.

Lemma get_match_ok text pattern error_text m :
  get_match text pattern error_text = Ok m -> Re.search pattern text = Some m.
Proof.
  unfold get_match. destruct (Re.search pattern text); [| discriminate].
  intros H. injection H as ->. reflexivity.
Qed.

Ltac open_extractor H :=
  apply bind_ok in H as (?text & _ & H);
  apply bind_ok in H as (?m & ?Hmatch & H);
  apply get_match_ok in Hmatch;
  injection H as <-.

(** X1. Whatever the page holds, a birth date that [get_birth_date] returns
    has the form YYYY-MM-DD: ten characters, digits with a dash in the fifth
    and in the eighth place. *)
Theorem get_birth_date_is_iso_date w name answer :
  get_birth_date w name = Ok answer ->
  has_shape iso_date_shape answer = true.
Proof.
  intros H. unfold get_birth_date in H. open_extractor H.
  eapply birth_group_iso. eassumption.
Qed.

(** X2. A polar radius that [get_polar_radius] returns is never empty and is
    made of digits, commas and dots only. *)
Theorem get_polar_radius_is_numeric w planet_name answer :
  get_polar_radius w planet_name = Ok answer ->
  answer <> EmptyString /\ all_chars is_radius_char answer = true.
Proof.
  intros H. unfold get_polar_radius in H. open_extractor H.
  destruct (radius_group_chars _ Hmatch) as [Hne Hall].
  split; [| exact Hall]. intros E. rewrite E in Hne. discriminate.
Qed.

(** X3. A population that [get_population] returns is never empty and is made
    of digits and commas only. *)
Theorem get_population_is_numeric w location_name answer :
  get_population w location_name = Ok answer ->
  answer <> EmptyString /\ all_chars is_population_char answer = true.
Proof.
  intros H. unfold get_population in H. open_extractor H.
  destruct (population_group_chars _ Hmatch) as [Hne Hall].
  split; [| exact Hall]. intros E. rewrite E in Hne. discriminate.
Qed.

(** X4. The languages that [get_official_language] returns are never the empty
    string and hold only word characters, white space, commas, slashes and
    hyphens. *)
Theorem get_official_language_chars w country_name answer :
  get_official_language w country_name = Ok answer ->
  answer <> EmptyString /\ all_chars is_language_char answer = true.
Proof.
  intros H. unfold get_official_language in H. open_extractor H.
  destruct (languages_group_chars _ Hmatch) as [Hne Hall].
  split; [| exact Hall]. intros E. rewrite E in Hne. discriminate.
Qed.

(** X5. A birth place that [get_birth_place] returns is a city, a comma, a
    space and a country, where city and country are made of ASCII letters and
    white space and neither begins nor ends with white space. *)
Theorem get_birth_place_is_city_and_country w name answer :
  get_birth_place w name = Ok answer ->
  exists city country,
    answer = (city ++ ", " ++ country)%string
    /\ all_chars is_place_char city = true
    /\ all_chars is_place_char country = true
    /\ trimmed city = true /\ trimmed country = true.
Proof.
  intros H. unfold get_birth_place in H. open_extractor H.
  destruct (place_groups_chars _ Hmatch) as [H1 H2].
  exists (Py.strip (Re.group m "1")), (Py.strip (Re.group m "2")).
  split; [reflexivity |].
  split; [apply all_chars_strip; exact H1 |].
  split; [apply all_chars_strip; exact H2 |].
  split; apply strip_trimmed.
Qed.

(** ** [clean_text]: fixed points, idempotence, length *)

Lemma only_ascii_printable s :
  all_chars is_printable s = true -> only_ascii s = s.
Proof.
  induction s as [| c s IH]; intros H; [reflexivity |].
  cbn [all_chars] in H. apply andb_true_iff in H as [Hc H].
  rewrite only_ascii_cons, Hc, (IH H). reflexivity.
Qed.

Lemma sub_runs_from_no_adjacent c :
  forall s,
    no_adjacent c s = true ->
    sub_runs_from false c s = s
    /\ (starts_with c s = false -> sub_runs_from true c s = s).
Proof.
  induction s as [| x rest IH]; intros H; [split; reflexivity |].
  rewrite no_adjacent_cons in H. apply andb_true_iff in H as [Hhead Hrest].
  destruct (IH Hrest) as [IHf IHt]. cbn [sub_runs_from starts_with].
  destruct (Ascii.eqb x c) eqn:E.
  - apply Ascii.eqb_eq in E as ->. simpl in Hhead.
    apply negb_true_iff in Hhead. split; [| discriminate].
    rewrite (IHt Hhead). reflexivity.
  - rewrite IHf. split; reflexivity.
Qed.

Lemma clean_text_shape text :
  all_chars is_printable (clean_text text) = true
  /\ no_adjacent space (clean_text text) = true
  /\ no_adjacent newline (clean_text text) = true.
Proof.
  unfold clean_text, sub_runs. split; [| split].
  - apply all_chars_sub_runs, all_chars_sub_runs, all_chars_only_ascii.
  - apply no_adjacent_sub_runs_other; [discriminate |]. apply sub_runs_from_shape.
  - apply sub_runs_from_shape.
Qed.

Lemma clean_text_of_clean text :
  all_chars is_printable text = true ->
  no_adjacent space text = true ->
  no_adjacent newline text = true ->
  clean_text text = text.
Proof.
  intros Hp Hs Hn. unfold clean_text, sub_runs.
  rewrite (only_ascii_printable _ Hp).
  rewrite (proj1 (sub_runs_from_no_adjacent _ _ Hs)).
  apply (proj1 (sub_runs_from_no_adjacent _ _ Hn)).
Qed.

(** X6. The texts that [clean_text] leaves as they are are exactly the texts
    made of printable characters in which no two spaces and no two newlines
    stand side by side. *)
Theorem clean_text_fixed_points text :
  clean_text text = text
  <-> (all_chars is_printable text = true
       /\ no_adjacent space text = true
       /\ no_adjacent newline text = true).
Proof.
  split.
  - intros H. rewrite <- H. apply clean_text_shape.
  - intros (Hp & Hs & Hn). apply clean_text_of_clean; assumption.
Qed.

(** X7. Cleaning twice is cleaning once. *)
Theorem clean_text_idempotent text :
  clean_text (clean_text text) = clean_text text.
Proof.
  destruct (clean_text_shape text) as (Hp & Hs & Hn).
  apply clean_text_of_clean; assumption.
Qed.

Lemma length_only_ascii s : String.length (only_ascii s) = String.length s.
Proof.
  induction s as [| c s IH]; [reflexivity |].
  rewrite only_ascii_cons. simpl. rewrite IH. reflexivity.
Qed.

Lemma length_sub_runs_from c :
  forall s b, String.length (sub_runs_from b c s) <= String.length s.
Proof.
  induction s as [| x rest IH]; intros b; [simpl; lia |].
  cbn [sub_runs_from]. destruct (Ascii.eqb x c).
  - destruct b; simpl.
    + specialize (IH true). lia.
    + specialize (IH true). lia.
  - simpl. specialize (IH false). lia.
Qed.

(** X8. Putting spaces for the characters that are not printable keeps the
    length of the text, and [clean_text] never makes a text longer. *)
Theorem clean_text_length text :
  String.length (only_ascii text) = String.length text
  /\ String.length (clean_text text) <= String.length text.
Proof.
  split; [apply length_only_ascii |].
  unfold clean_text, sub_runs.
  pose proof (length_sub_runs_from newline
                (sub_runs_from false space (only_ascii text)) false).
  pose proof (length_sub_runs_from space (only_ascii text) false).
  rewrite length_only_ascii in *. lia.
Qed.

(** ** The failures of the extractors *)

Lemma infobox_of_cases w title :
  match infobox_of w title with
  | Ok text => fetched_infobox w title text
  | Raise e => fetch_failure w title e
  end.
Proof.
  unfold infobox_of, get_page_html, get_first_infobox_text, fetch_failure,
    fetched_infobox.
  destruct (wikipedia_search w title) as [[| first rest] | e]; simpl.
  - right. left. split; reflexivity.
  - destruct (page_html w first) as [html | e] eqn:Eh; simpl.
    + destruct (infobox_texts w html) as [| box boxes] eqn:Eb; simpl.
      * right. right. right. exists first, rest, html. repeat split; assumption.
      * exists first, rest, html, box, boxes. repeat split; assumption.
    + right. right. left. exists first, rest. split; [reflexivity | exact Eh].
  - left. reflexivity.
Qed.

Lemma fetch_failure_raises w title e :
  fetch_failure w title e -> infobox_of w title = Raise e.
Proof.
  unfold infobox_of, get_page_html, get_first_infobox_text.
  intros [H | [[H ->] | [(first & rest & H & Hh) | (first & rest & html & H & Hh & Hb & ->)]]];
    rewrite H; simpl; try reflexivity.
  - rewrite Hh. reflexivity.
  - rewrite Hh. simpl. rewrite Hb. reflexivity.
Qed.

Lemma fetched_infobox_returns w title text :
  fetched_infobox w title text -> infobox_of w title = Ok text.
Proof.
  unfold infobox_of, get_page_html, get_first_infobox_text.
  intros (first & rest & html & box & boxes & H & Hh & Hb & ->).
  rewrite H. simpl. rewrite Hh. simpl. rewrite Hb. reflexivity.
Qed.

Lemma extractor_raise_iff w title pattern error_text (f : Re.Match -> string) e :
  (infobox_text <- infobox_of w title ;;
   m <- get_match infobox_text pattern error_text ;;
   Ok (f m)) = Raise e
  <-> extractor_failure w title pattern error_text e.
Proof.
  unfold extractor_failure. pose proof (infobox_of_cases w title) as Hc. split.
  - destruct (infobox_of w title) as [text | e'] eqn:Ei; simpl.
    + unfold get_match. destruct (Re.search pattern text) eqn:Es; simpl; [discriminate |].
      intros H. injection H as <-. right. exists text. repeat split; assumption.
    + intros H. injection H as <-. left. exact Hc.
  - intros [Hf | (text & Hf & Hs & ->)].
    + rewrite (fetch_failure_raises Hf). reflexivity.
    + rewrite (fetched_infobox_returns Hf). simpl. unfold get_match.
      rewrite Hs. reflexivity.
Qed.

(** X9. Each of the five extractors raises exactly in these cases: the search
    or the page raises (the same exception); the search finds nothing
    ([IndexError]); the page has no infobox ([LookupError], "Page has no
    infobox"); or the pattern is not found in the cleaned text of the first
    infobox ([AttributeError] with the message of that extractor).  So a
    missing infobox is reported before any pattern is tried, and only the
    first search result and the first infobox count. *)
Theorem extractors_raise_exactly w title e :
  (get_polar_radius w title = Raise e
   <-> extractor_failure w title polar_radius_pattern
         "Page infobox has no polar radius information" e)
  /\ (get_birth_date w title = Raise e
      <-> extractor_failure w title birth_date_pattern
            "Page infobox has no birth information (at least none in xxxx-xx-xx format)" e)
  /\ (get_population w title = Raise e
      <-> extractor_failure w title population_pattern
            "Page infobox has no population information" e)
  /\ (get_official_language w title = Raise e
      <-> extractor_failure w title official_language_pattern
            "Page infobox has no official language information" e)
  /\ (get_birth_place w title = Raise e
      <-> extractor_failure w title birth_place_pattern
            "Page infobox has no birth place information" e).
Proof.
  repeat split; try (apply extractor_raise_iff); intros H;
    apply (extractor_raise_iff w title _ _ _ e); exact H.
Qed.

(** ** What [search_pa_list] returns *)

Lemma search_pa_list_ok_cases w src answers :
  search_pa_list w src = Ok answers ->
  (unmatched match_ pa_list src /\ answers = dont_understand)
  \/ (exists mat a,
         match_ ["when"; "was"; WILD; "born"] src = Some mat
         /\ get_birth_date w (Py.join " " mat) = Ok a /\ answers = [a])
  \/ (exists first rest a,
         match_ ["what"; "is"; "the"; "polar"; "radius"; "of"; WILD] src
         = Some (first :: rest)
         /\ get_polar_radius w first = Ok a /\ answers = [a]).
Proof.
  unfold search_pa_list, search_pa_list_calls, unmatched.
  change pa_list with
    [ (["when"; "was"; WILD; "born"], BirthDate);
      (["what"; "is"; "the"; "polar"; "radius"; "of"; WILD], PolarRadius);
      (["bye"], ByeAction) ].
  set (p1 := ["when"; "was"; WILD; "born"]).
  set (p2 := ["what"; "is"; "the"; "polar"; "radius"; "of"; WILD]).
  set (p3 := ["bye"]).
  cbn [search_table].
  destruct (match_ p1 src) as [mat |] eqn:E1.
  { cbn [snd action_of]. unfold birth_date.
    destruct (get_birth_date w (Py.join " " mat)) as [a | e] eqn:Ea; simpl;
      [| discriminate].
    intros H. injection H as <-. right. left. exists mat, a.
    repeat split. exact Ea. }
  destruct (match_ p2 src) as [mat |] eqn:E2.
  { cbn [snd action_of]. unfold polar_radius.
    destruct mat as [| first rest]; [discriminate |].
    destruct (get_polar_radius w first) as [a | e] eqn:Ea; simpl; [| discriminate].
    intros H. injection H as <-. right. right. exists first, rest, a.
    repeat split. exact Ea. }
  destruct (match_ p3 src) as [mat |] eqn:E3.
  { cbn [snd action_of]. discriminate. }
  cbn [snd]. intros H. injection H as <-. left. split; [| reflexivity].
  intros pat act [Hin | [Hin | [Hin | []]]]; injection Hin as <- _; assumption.
Qed.

(** X10. Whenever [search_pa_list] returns, it returns exactly one answer:
    "I don't understand", a date of the form YYYY-MM-DD, or a non-empty radius
    made of digits, commas and dots.  With the table as it is declared it
    never returns "No answers". *)
Theorem search_pa_list_returns_one_answer w src answers :
  search_pa_list w src = Ok answers ->
  exists a,
    answers = [a]
    /\ a <> "No answers"
    /\ (a = "I don't understand"
        \/ has_shape iso_date_shape a = true
        \/ (a <> EmptyString /\ all_chars is_radius_char a = true)).
Proof.
  intros H. apply search_pa_list_ok_cases in H
    as [[_ ->] | [(mat & a & _ & Ha & ->) | (first & rest & a & _ & Ha & ->)]].
  - exists "I don't understand". split; [reflexivity |]. split; [discriminate |].
    left. reflexivity.
  - exists a. split; [reflexivity |].
    unfold get_birth_date in Ha. open_extractor Ha.
    pose proof (birth_group_iso _ Hmatch) as Hiso. split.
    + intros E. rewrite E in Hiso. discriminate Hiso.
    + right. left. exact Hiso.
  - exists a. split; [reflexivity |].
    unfold get_polar_radius in Ha. open_extractor Ha.
    destruct (radius_group_chars _ Hmatch) as [Hne Hall]. split.
    + intros E. rewrite E in Hall. discriminate Hall.
    + right. right. split; [| exact Hall].
      intros E. rewrite E in Hne. discriminate Hne.
Qed.

(** X11. [search_pa_list] returns "I don't understand" if and only if no
    pattern of the table matches the tokens: no answer of an action can be
    taken for the sentinel. *)
Theorem search_pa_list_dont_understand_iff w src :
  search_pa_list w src = Ok ["I don't understand"]
  <-> unmatched match_ pa_list src.
Proof.
  split.
  - intros H. apply search_pa_list_ok_cases in H
      as [[Hu _] | [(mat & a & _ & Ha & E) | (first & rest & a & _ & Ha & E)]].
    + exact Hu.
    + injection E as E. subst a. unfold get_birth_date in Ha.
      apply bind_ok in Ha as (text & _ & Ha).
      apply bind_ok in Ha as (m & Hmatch & Ha).
      apply get_match_ok in Hmatch. injection Ha as Ha.
      pose proof (birth_group_iso _ Hmatch) as Hiso.
      rewrite Ha in Hiso. discriminate Hiso.
    + injection E as E. subst a. unfold get_polar_radius in Ha.
      apply bind_ok in Ha as (text & _ & Ha).
      apply bind_ok in Ha as (m & Hmatch & Ha).
      apply get_match_ok in Hmatch. injection Ha as Ha.
      destruct (radius_group_chars _ Hmatch) as [_ Hall].
      rewrite Ha in Hall. discriminate Hall.
  - intros Hu. unfold search_pa_list, search_pa_list_calls.
    rewrite search_table_unmatched by exact Hu. reflexivity.
Qed.

(** ** How [query_loop] ends *)




(** X13. The loop ends gracefully at the end of the input (Ctrl-D) and at a
    Ctrl-C typed at the prompt: when the dispatch of every line before returns,
    [query_loop] writes the rounds of those lines, the blank line, the prompt
    and the farewell, and returns; what follows a Ctrl-C is not read. *)
Theorem query_loop_ends_gracefully w texts rest :
  forallb (dispatch_returns w) texts = true ->
  query_loop w (map Line texts)
  = ([Welcome] ++ transcript w texts ++ [Blank; Prompt; Farewell], None)
  /\ query_loop w (map Line texts ++ CtrlC :: rest)
     = ([Welcome] ++ transcript w texts ++ [Blank; Prompt; Farewell], None).
Proof.
  intros Hall. unfold query_loop. split.
  - rewrite <- (app_nil_r (map Line texts)).
    rewrite while_true_lines by exact Hall. cbn [while_true].
    rewrite <- !app_assoc. reflexivity.
  - rewrite while_true_lines by exact Hall. cbn [while_true].
    rewrite <- !app_assoc. reflexivity.
Qed.

(** ** Tokens: question marks, joining, blank lines *)

Lemma lower_char_isspace c : Py.isspace (Py.lower_char c) = Py.isspace c.
Proof. destruct c as [[] [] [] [] [] [] [] []]; reflexivity. Qed.

Lemma remove_char_idempotent old text :
  Py.remove_char old (Py.remove_char old text) = Py.remove_char old text.
Proof.
  induction text as [| c rest IH]; [reflexivity |].
  cbn [Py.remove_char]. destruct (Ascii.eqb c old) eqn:E; [exact IH |].
  cbn [Py.remove_char]. rewrite E, IH. reflexivity.
Qed.

Lemma remove_char_app old a b :
  Py.remove_char old (a ++ b)
  = (Py.remove_char old a ++ Py.remove_char old b)%string.
Proof.
  induction a as [| c a IH]; [reflexivity |].
  cbn [append Py.remove_char]. destruct (Ascii.eqb c old); [exact IH |].
  cbn [append]. rewrite IH. reflexivity.
Qed.

(** X14. The query of a line does not depend on its question marks: removing
    them beforehand, or putting one more anywhere in the line, gives the same
    tokens. *)
Theorem tokenize_ignores_question_marks text before after :
  tokenize (Py.remove_char "?" text) = tokenize text
  /\ tokenize (before ++ "?" ++ after) = tokenize (before ++ after).
Proof.
  unfold tokenize. split.
  - rewrite remove_char_idempotent. reflexivity.
  - rewrite !remove_char_app. reflexivity.
Qed.

Lemma split_from_token tok :
  all_chars (fun c => negb (Py.isspace c)) tok = true ->
  forall word s,
    Py.split_from word (tok ++ s) = Py.split_from (word ++ tok) s.
Proof.
  induction tok as [| c tok IH]; intros H word s.
  - replace (word ++ EmptyString)%string with word; [reflexivity |].
    induction word as [| d word IHw]; simpl; [reflexivity | rewrite <- IHw; reflexivity].
  - cbn [all_chars] in H. apply andb_true_iff in H as [Hc H].
    apply negb_true_iff in Hc.
    cbn [append Py.split_from]. rewrite Hc, (IH H).
    rewrite append_assoc_char. reflexivity.
Qed.

Lemma split_join toks :
  Forall (fun tok => Py.is_empty tok = false
                     /\ all_chars (fun c => negb (Py.isspace c)) tok = true) toks ->
  Py.split (Py.join " " toks) = toks.
Proof.
  unfold Py.split, Py.join.
  induction toks as [| tok toks IH]; intros H; [reflexivity |].
  inversion H as [| ? ? [Hne Hns] Hrest]; subst.
  destruct toks as [| tok2 toks2].
  - cbn [concat]. rewrite <- (string_append_empty tok) at 1.
    rewrite (split_from_token _ Hns). cbn [append Py.split_from].
    rewrite Hne. reflexivity.
  - cbn [concat]. rewrite (split_from_token _ Hns).
    cbn [append Py.split_from]. change (Py.isspace " ") with true. cbv iota.
    rewrite Hne. f_equal. apply IH. exact Hrest.
Qed.

Lemma lower_remove_fixed s :
  all_chars (fun c => negb (Ascii.eqb c "?") && Ascii.eqb (Py.lower_char c) c) s = true ->
  Py.lower (Py.remove_char "?" s) = s.
Proof.
  induction s as [| c s IH]; intros H; [reflexivity |].
  cbn [all_chars] in H. apply andb_true_iff in H as [Hc H].
  apply andb_true_iff in Hc as [Hm Hl]. apply negb_true_iff in Hm.
  apply Ascii.eqb_eq in Hl.
  cbn [Py.remove_char]. rewrite Hm. cbn [Py.lower]. rewrite Hl, (IH H). reflexivity.
Qed.

Lemma all_chars_join p toks :
  p " "%char = true ->
  Forall (fun tok => all_chars p tok = true) toks ->
  all_chars p (Py.join " " toks) = true.
Proof.
  intros Hsp. unfold Py.join.
  induction toks as [| tok toks IH]; intros H; [reflexivity |].
  inversion H as [| ? ? Htok Hrest]; subst.
  destruct toks as [| tok2 toks2]; [exact Htok |].
  change (concat " " (tok :: tok2 :: toks2))
    with (tok ++ " " ++ concat " " (tok2 :: toks2))%string.
  rewrite !all_chars_app, Htok, (IH Hrest). simpl. rewrite Hsp. reflexivity.
Qed.

Lemma all_chars_weaken (p q : ascii -> bool) s :
  (forall c, p c = true -> q c = true) ->
  all_chars p s = true -> all_chars q s = true.
Proof.
  intros Hpq. induction s as [| c s IH]; simpl; [reflexivity |].
  intros H. apply andb_true_iff in H as [Hc H]. rewrite (Hpq c Hc), (IH H). reflexivity.
Qed.

(** X15. Joining the tokens of a line with single spaces, as the actions do
    with their capture, and reading the result as a line gives the tokens
    back: [tokenize] undoes [" ".join] on the tokens it produced. *)
Theorem tokenize_join_round_trip text :
  tokenize (Py.join " " (tokenize text)) = tokenize text.
Proof.
  pose proof (tokenize_normal text) as Hn.
  unfold tokenize at 1. rewrite lower_remove_fixed.
  - apply split_join. eapply Forall_impl; [| exact Hn].
    intros tok H. unfold normal_token in H.
    apply andb_true_iff in H as [Hne Hall]. apply negb_true_iff in Hne.
    split; [exact Hne |].
    revert Hall. apply all_chars_weaken.
    intros c Hc. apply andb_true_iff in Hc as [Hc _].
    apply andb_true_iff in Hc as [Hc _]. exact Hc.
  - apply all_chars_join; [reflexivity |].
    eapply Forall_impl; [| exact Hn].
    intros tok H. unfold normal_token in H.
    apply andb_true_iff in H as [_ Hall]. revert Hall. apply all_chars_weaken.
    intros c Hc. apply andb_true_iff in Hc as [Hc Hl].
    apply andb_true_iff in Hc as [_ Hm]. rewrite Hm, Hl. reflexivity.
Qed.

Lemma split_from_nil :
  forall s word,
    Py.split_from word s = [] <->
    (word = EmptyString /\ all_chars Py.isspace s = true).
Proof.
  induction s as [| c s IH]; intros word; cbn [Py.split_from all_chars].
  - destruct word; simpl; split; try discriminate; try (intros [? _]; discriminate).
    + intros _. split; reflexivity.
    + intros _. reflexivity.
  - destruct (Py.isspace c) eqn:Ec; cbn [andb].
    + destruct word as [| d word]; cbn [Py.is_empty].
      * apply IH.
      * split; [discriminate | intros [? _]; discriminate].
    + rewrite IH. split.
      * intros [H _]. destruct word; discriminate H.
      * intros [_ H]. discriminate H.
Qed.

Lemma all_chars_lower_remove text :
  all_chars Py.isspace (Py.lower (Py.remove_char "?" text))
  = all_chars is_blank_or_mark text.
Proof.
  induction text as [| c rest IH]; [reflexivity |].
  cbn [Py.remove_char all_chars]. unfold is_blank_or_mark at 1.
  destruct (Ascii.eqb c "?") eqn:E.
  - rewrite orb_true_r. exact IH.
  - cbn [Py.lower all_chars]. rewrite lower_char_isspace, orb_false_r, IH. reflexivity.
Qed.

(** X16. A line gives no token at all exactly when it holds nothing but white
    space and question marks (the empty line among them); the loop then
    answers "I don't understand" and goes on with the next line. *)
Theorem blank_line_is_not_understood w text :
  (tokenize text = [] <-> all_chars is_blank_or_mark text = true)
  /\ (all_chars is_blank_or_mark text = true ->
      forall input out,
        while_true w (Line text :: input) out
        = while_true w input (out ++ [Blank; Prompt; Answer "I don't understand"])).
Proof.
  assert (Hiff : tokenize text = [] <-> all_chars is_blank_or_mark text = true).
  { unfold tokenize, Py.split. rewrite split_from_nil, all_chars_lower_remove.
    split; [intros [_ H]; exact H | intros H; split; [reflexivity | exact H]]. }
  split; [exact Hiff |].
  intros H input out. apply Hiff in H. cbn [while_true]. rewrite H. reflexivity.
Qed.

(** ** When the birth date is found *)

Lemma search_found r s :
  Re.run r s [] (fun _ g => Some g) <> None ->
  forall before, Re.search r (before ++ s) <> None.
Proof.
  intros Hrun.
  assert (Hs : Re.search r s <> None).
  { destruct s; cbn [Re.search];
      match goal with
      | |- context [Re.run r ?t [] ?k] => destruct (Re.run r t [] k)
      end; congruence. }
  induction before as [| c before IH]; [exact Hs |].
  cbn [append Re.search].
  destruct (Re.run r (String c (before ++ s)) [] (fun _ g => Some g));
    [discriminate | exact IH].
Qed.

Lemma run_star_greedy_found (T : Type) cs :
  forall gap s g (k : string -> Re.Match -> option T),
    all_chars (Re.fits cs) gap = true ->
    k s g <> None ->
    Re.run (Re.Star true cs) (gap ++ s) g k <> None.
Proof.
  induction gap as [| c gap IH]; intros s g k Hgap Hk.
  - cbn [append Re.run]. destruct s as [| d s']; [exact Hk |].
    destruct (Re.fits cs d); [| exact Hk].
    match goal with
    | |- match ?m with _ => _ end <> None => destruct m
    end; [discriminate | exact Hk].
  - cbn [all_chars] in Hgap. apply andb_true_iff in Hgap as [Hc Hgap].
    specialize (IH s g k Hgap Hk). cbn [Re.run] in IH.
    cbn [append Re.run]. rewrite Hc.
    match goal with
    | |- match ?m with _ => _ end <> None => destruct m
    end; [discriminate | contradiction].
Qed.

Lemma fits_born_b c : Py.lower_char c = "b"%char -> Re.fits (Re.Lit "B") c = true.
Proof. destruct c as [[] [] [] [] [] [] [] []]; intros H; first [reflexivity | discriminate H]. Qed.

Lemma fits_born_o c : Py.lower_char c = "o"%char -> Re.fits (Re.Lit "o") c = true.
Proof. destruct c as [[] [] [] [] [] [] [] []]; intros H; first [reflexivity | discriminate H]. Qed.

Lemma fits_born_r c : Py.lower_char c = "r"%char -> Re.fits (Re.Lit "r") c = true.
Proof. destruct c as [[] [] [] [] [] [] [] []]; intros H; first [reflexivity | discriminate H]. Qed.

Lemma fits_born_n c : Py.lower_char c = "n"%char -> Re.fits (Re.Lit "n") c = true.
Proof. destruct c as [[] [] [] [] [] [] [] []]; intros H; first [reflexivity | discriminate H]. Qed.

Lemma digit_fits c : Re.is_digit c = true -> Re.fits Re.Digit c = true.
Proof. intros H. unfold Re.fits. cbn [Re.fits_exact]. rewrite H. reflexivity. Qed.

Lemma dash_fits c : is_dash c = true -> Re.fits (Re.Lit "-") c = true.
Proof. intros H. apply Ascii.eqb_eq in H as ->. reflexivity. Qed.

Lemma non_digit_fits gap :
  all_chars (fun c => negb (Re.is_digit c)) gap = true ->
  all_chars (Re.fits Re.NonDigit) gap = true.
Proof.
  apply all_chars_weaken. intros c H. unfold Re.fits. cbn [Re.fits_exact].
  rewrite H. reflexivity.
Qed.

Lemma run_seq (T : Type) r1 r2 s g (k : string -> Re.Match -> option T) :
  Re.run (Re.Seq r1 r2) s g k = Re.run r1 s g (fun s' g' => Re.run r2 s' g' k).
Proof. reflexivity. Qed.

Lemma run_chr (T : Type) cs c s g (k : string -> Re.Match -> option T) :
  Re.fits cs c = true -> Re.run (Re.Chr cs) (String c s) g k = k s g.
Proof. intros H. cbn [Re.run]. rewrite H. reflexivity. Qed.

Lemma run_eps (T : Type) s g (k : string -> Re.Match -> option T) :
  Re.run Re.Eps s g k = k s g.
Proof. reflexivity. Qed.

Lemma run_group (T : Type) name r s g (k : string -> Re.Match -> option T) :
  Re.run (Re.Group name r) s g k
  = Re.run r s g (fun s' g' => k s' ((name, Re.consumed s s') :: g')).
Proof. reflexivity. Qed.

Ltac run_steps :=
  repeat (first [ rewrite run_seq | rewrite run_chr by assumption
                | rewrite run_eps | rewrite run_group ];
          cbv beta).

Lemma birth_pattern_found label gap date after :
  Py.lower label = "born" ->
  all_chars (fun c => negb (Re.is_digit c)) gap = true ->
  has_shape iso_date_shape date = true ->
  Re.run birth_date_pattern (label ++ gap ++ date ++ after) []
         (fun _ g => Some g) <> None.
Proof.
  intros Hlabel Hgap Hdate.
  destruct label as [| b [| o [| r [| n [| x label]]]]]; try discriminate Hlabel.
  cbn [Py.lower] in Hlabel. injection Hlabel as Hb Ho Hr Hn.
  apply fits_born_b in Hb. apply fits_born_o in Ho.
  apply fits_born_r in Hr. apply fits_born_n in Hn.
  unfold iso_date_shape in Hdate.
  repeat (destruct date as [| ?c date]; [discriminate Hdate |];
          cbn [has_shape] in Hdate;
          apply andb_true_iff in Hdate as [?Hc Hdate]).
  repeat match goal with
         | Hd : Re.is_digit _ = true |- _ => apply digit_fits in Hd
         | Hd : is_dash _ = true |- _ => apply dash_fits in Hd
         end.
  unfold birth_date_pattern. cbn [Re.seq Re.lit Re.times append].
  run_steps.
  apply run_star_greedy_found; [apply non_digit_fits; exact Hgap |].
  cbn [append]. run_steps. discriminate.
Qed.

(** X17. When the cleaned infobox holds the word "born" in any case, then
    characters that are not digits, then a date of the form YYYY-MM-DD,
    [get_birth_date] does not raise: it returns a date of that form. *)
Theorem get_birth_date_finds_a_date w name before label gap date after :
  fetched_infobox w name (before ++ label ++ gap ++ date ++ after) ->
  Py.lower label = "born" ->
  all_chars (fun c => negb (Re.is_digit c)) gap = true ->
  has_shape iso_date_shape date = true ->
  exists answer,
    get_birth_date w name = Ok answer
    /\ has_shape iso_date_shape answer = true.
Proof.
  intros Hf Hlabel Hgap Hdate.
  pose proof (@search_found birth_date_pattern _
                (birth_pattern_found label gap date after Hlabel Hgap Hdate) before) as Hs.
  destruct (Re.search birth_date_pattern
              (before ++ label ++ gap ++ date ++ after)) as [m |] eqn:Em;
    [| contradiction].
  exists (Re.group m "birth"). split.
  - unfold get_birth_date. rewrite (fetched_infobox_returns Hf). simpl.
    unfold get_match. rewrite Em. reflexivity.
  - eapply birth_group_iso. exact Em.
Qed.

(** ** When the other fields are found *)

Lemma run_lit (T : Type) literal :
  forall label s g (k : string -> Re.Match -> option T),
    same_ignoring_case literal label = true ->
    Re.run (Re.lit literal) (label ++ s) g k = k s g.
Proof.
  induction literal as [| l literal IH]; intros label s g k H;
    destruct label as [| c label]; try discriminate H.
  - reflexivity.
  - cbn [same_ignoring_case] in H. apply andb_true_iff in H as [Hc H].
    cbn [Re.lit append]. rewrite run_seq, run_chr by exact Hc.
    apply IH. exact H.
Qed.

Lemma run_star_lazy_found (T : Type) cs :
  forall gap s g (k : string -> Re.Match -> option T),
    all_chars (Re.fits cs) gap = true ->
    k s g <> None ->
    Re.run (Re.Star false cs) (gap ++ s) g k <> None.
Proof.
  induction gap as [| c gap IH]; intros s g k Hgap Hk.
  - cbn [append Re.run]. destruct s as [| d s'];
      destruct (k _ g); congruence.
  - cbn [all_chars] in Hgap. apply andb_true_iff in Hgap as [Hc Hgap].
    specialize (IH s g k Hgap Hk). cbn [Re.run] in IH.
    cbn [append Re.run]. rewrite Hc.
    destruct (k (String c (gap ++ s)) g); [discriminate | exact IH].
Qed.

Lemma run_opt_found (T : Type) r s g (k : string -> Re.Match -> option T) :
  k s g <> None -> Re.run (Re.Opt r) s g k <> None.
Proof.
  intros Hk. cbn [Re.run]. destruct (Re.run r s g k); [discriminate | exact Hk].
Qed.

Lemma run_plus_found (T : Type) cs c u s g (k : string -> Re.Match -> option T) :
  Re.fits cs c = true ->
  all_chars (Re.fits cs) u = true ->
  k s g <> None ->
  Re.run (Re.plus cs) (String c (u ++ s)) g k <> None.
Proof.
  intros Hc Hu Hk. unfold Re.plus. rewrite run_seq, run_chr by exact Hc.
  apply run_star_greedy_found; assumption.
Qed.

Lemma all_fit_dot s : all_chars (Re.fits Re.Dot) s = true.
Proof. induction s as [| c s IH]; [reflexivity | simpl; exact IH]. Qed.

Lemma found_returns pattern error_text text :
  Re.search pattern text <> None ->
  exists m, get_match text pattern error_text = Ok m
            /\ Re.search pattern text = Some m.
Proof.
  intros H. unfold get_match. destruct (Re.search pattern text) as [m |];
    [| contradiction].
  exists m. split; reflexivity.
Qed.

(** X18. When the cleaned infobox holds "Polar radius" in any case, then any
    text, then a number made of digits, commas and dots, then any text, then
    "km" in any case, [get_polar_radius] does not raise: it returns a
    non-empty text of digits, commas and dots. *)
Theorem get_polar_radius_finds_a_radius
        w name before label gap c number gap' unit after :
  fetched_infobox w name
    (before ++ label ++ gap ++ String c number ++ gap' ++ unit ++ after) ->
  same_ignoring_case "Polar radius" label = true ->
  all_chars is_radius_char (String c number) = true ->
  same_ignoring_case "km" unit = true ->
  exists answer,
    get_polar_radius w name = Ok answer
    /\ answer <> EmptyString /\ all_chars is_radius_char answer = true.
Proof.
  intros Hf Hlabel Hnum Hunit.
  rewrite <- (all_chars_ext _ _ _ fits_radius_char) in Hnum.
  cbn [all_chars] in Hnum. apply andb_true_iff in Hnum as [Hc Hnum].
  assert (Hrun : Re.run polar_radius_pattern
                   (label ++ gap ++ String c number ++ gap' ++ unit ++ after) []
                   (fun _ g => Some g) <> None).
  { unfold polar_radius_pattern. cbn [Re.seq append].
    rewrite run_seq, run_lit by exact Hlabel.
    rewrite run_seq. apply run_star_lazy_found; [apply all_fit_dot |].
    rewrite run_seq. apply run_opt_found.
    rewrite run_seq, run_group. apply run_plus_found; [exact Hc | exact Hnum |].
    rewrite run_seq. apply run_star_lazy_found; [apply all_fit_dot |].
    rewrite run_seq, run_lit by exact Hunit. rewrite run_eps. discriminate. }
  destruct (@found_returns polar_radius_pattern
              "Page infobox has no polar radius information" _
              (@search_found _ _ Hrun before)) as (m & Hm & Hs).
  exists (Re.group m "radius"). split.
  - unfold get_polar_radius. rewrite (fetched_infobox_returns Hf). cbn [bind].
    rewrite Hm. reflexivity.
  - destruct (radius_group_chars _ Hs) as [Hne Hall]. split; [| exact Hall].
    intros E. rewrite E in Hne. discriminate Hne.
Qed.

(** X19. When the cleaned infobox holds "Population" in any case, then any
    text, then a number made of digits and commas, then any text, then
    "people" in any case, [get_population] does not raise: it returns a
    non-empty text of digits and commas. *)
Theorem get_population_finds_a_number
        w name before label gap c number gap' unit after :
  fetched_infobox w name
    (before ++ label ++ gap ++ String c number ++ gap' ++ unit ++ after) ->
  same_ignoring_case "Population" label = true ->
  all_chars is_population_char (String c number) = true ->
  same_ignoring_case "people" unit = true ->
  exists answer,
    get_population w name = Ok answer
    /\ answer <> EmptyString /\ all_chars is_population_char answer = true.
Proof.
  intros Hf Hlabel Hnum Hunit.
  rewrite <- (all_chars_ext _ _ _ fits_population_char) in Hnum.
  cbn [all_chars] in Hnum. apply andb_true_iff in Hnum as [Hc Hnum].
  assert (Hrun : Re.run population_pattern
                   (label ++ gap ++ String c number ++ gap' ++ unit ++ after) []
                   (fun _ g => Some g) <> None).
  { unfold population_pattern. cbn [Re.seq append].
    rewrite run_seq, run_lit by exact Hlabel.
    rewrite run_seq. apply run_star_lazy_found; [apply all_fit_dot |].
    rewrite run_seq, run_group. apply run_plus_found; [exact Hc | exact Hnum |].
    rewrite run_seq. apply run_star_lazy_found; [apply all_fit_dot |].
    rewrite run_seq.
    apply (@run_star_greedy_found _ Re.Space EmptyString); [reflexivity |].
    rewrite run_seq, run_lit by exact Hunit. rewrite run_eps. discriminate. }
  destruct (@found_returns population_pattern
              "Page infobox has no population information" _
              (@search_found _ _ Hrun before)) as (m & Hm & Hs).
  exists (Re.group m "population"). split.
  - unfold get_population. rewrite (fetched_infobox_returns Hf). cbn [bind].
    rewrite Hm. reflexivity.
  - destruct (population_group_chars _ Hs) as [Hne Hall]. split; [| exact Hall].
    intros E. rewrite E in Hne. discriminate Hne.
Qed.

Lemma spaces_fit spaces :
  all_chars Py.isspace spaces = true ->
  all_chars (Re.fits Re.Space) spaces = true.
Proof.
  apply all_chars_weaken. intros c H. unfold Re.fits. cbn [Re.fits_exact].
  rewrite H. reflexivity.
Qed.

(** X20. When the cleaned infobox holds "Official", white space or none,
    "languages" (both in any case), then any text, then a non-empty text of
    word characters, white space, commas, slashes and hyphens, then any text
    and a newline, [get_official_language] does not raise: it returns a
    non-empty text of such characters. *)
Theorem get_official_language_finds_languages
        w name before official spaces languages gap c names gap' after :
  fetched_infobox w name
    (before ++ official ++ spaces ++ languages ++ gap ++ String c names
       ++ gap' ++ String newline after) ->
  same_ignoring_case "Official" official = true ->
  all_chars Py.isspace spaces = true ->
  same_ignoring_case "languages" languages = true ->
  all_chars is_language_char (String c names) = true ->
  exists answer,
    get_official_language w name = Ok answer
    /\ answer <> EmptyString /\ all_chars is_language_char answer = true.
Proof.
  intros Hf Hoff Hsp Hlang Hnames.
  rewrite <- (all_chars_ext _ _ _ fits_language_char) in Hnames.
  cbn [all_chars] in Hnames. apply andb_true_iff in Hnames as [Hc Hnames].
  assert (Hrun : Re.run official_language_pattern
                   (official ++ spaces ++ languages ++ gap ++ String c names
                      ++ gap' ++ String newline after) []
                   (fun _ g => Some g) <> None).
  { unfold official_language_pattern. cbn [Re.seq append].
    rewrite run_seq, run_lit by exact Hoff.
    rewrite run_seq. apply run_star_greedy_found; [apply spaces_fit; exact Hsp |].
    rewrite run_seq, run_lit by exact Hlang.
    rewrite run_seq. apply run_star_lazy_found; [apply all_fit_dot |].
    rewrite run_seq, run_group. apply run_plus_found; [exact Hc | exact Hnames |].
    rewrite run_seq. apply run_star_lazy_found; [apply all_fit_dot |].
    rewrite run_seq, run_chr by reflexivity. rewrite run_eps. discriminate. }
  destruct (@found_returns official_language_pattern
              "Page infobox has no official language information" _
              (@search_found _ _ Hrun before)) as (m & Hm & Hs).
  exists (Re.group m "languages"). split.
  - unfold get_official_language. rewrite (fetched_infobox_returns Hf). cbn [bind].
    rewrite Hm. reflexivity.
  - destruct (languages_group_chars _ Hs) as [Hne Hall]. split; [| exact Hall].
    intros E. rewrite E in Hne. discriminate Hne.
Qed.

(** X21. When the cleaned infobox holds "in" in any case, then a non-empty
    text of ASCII letters and white space, a comma, and another such text,
    [get_birth_place] does not raise: it returns a city, a comma, a space and
    a country, both trimmed and made of ASCII letters and white space. *)
Theorem get_birth_place_finds_a_place
        w name before label c1 city c2 country after :
  fetched_infobox w name
    (before ++ label ++ String c1 city ++ "," ++ String c2 country ++ after) ->
  same_ignoring_case "in" label = true ->
  all_chars is_place_char (String c1 city) = true ->
  all_chars is_place_char (String c2 country) = true ->
  exists answer city' country',
    get_birth_place w name = Ok answer
    /\ answer = (city' ++ ", " ++ country')%string
    /\ all_chars is_place_char city' = true
    /\ all_chars is_place_char country' = true
    /\ trimmed city' = true /\ trimmed country' = true.
Proof.
  intros Hf Hlabel Hcity Hcountry.
  rewrite <- (all_chars_ext _ _ _ fits_place_char) in Hcity.
  rewrite <- (all_chars_ext _ _ _ fits_place_char) in Hcountry.
  cbn [all_chars] in Hcity, Hcountry.
  apply andb_true_iff in Hcity as [Hc1 Hcity].
  apply andb_true_iff in Hcountry as [Hc2 Hcountry].
  assert (Hrun : Re.run birth_place_pattern
                   (label ++ String c1 city ++ "," ++ String c2 country ++ after) []
                   (fun _ g => Some g) <> None).
  { unfold birth_place_pattern. cbn [Re.seq append].
    rewrite run_seq, run_lit by exact Hlabel.
    rewrite run_seq.
    apply (@run_star_greedy_found _ Re.Space EmptyString); [reflexivity |].
    rewrite run_seq, run_group. apply run_plus_found; [exact Hc1 | exact Hcity |].
    cbn [Re.lit]. rewrite !run_seq, run_chr by reflexivity. rewrite run_eps.
    rewrite run_seq.
    apply (@run_star_greedy_found _ Re.Space EmptyString); [reflexivity |].
    rewrite run_seq, run_group.
    apply run_plus_found; [exact Hc2 | exact Hcountry |].
    rewrite run_eps. discriminate. }
  destruct (@found_returns birth_place_pattern
              "Page infobox has no birth place information" _
              (@search_found _ _ Hrun before)) as (m & Hm & Hs).
  destruct (place_groups_chars _ Hs) as [H1 H2].
  exists (Py.strip (Re.group m "1") ++ ", " ++ Py.strip (Re.group m "2"))%string,
    (Py.strip (Re.group m "1")), (Py.strip (Re.group m "2")).
  split.
  - unfold get_birth_place. rewrite (fetched_infobox_returns Hf). cbn [bind].
    rewrite Hm. reflexivity.
  - split; [reflexivity |].
    split; [apply all_chars_strip; exact H1 |].
    split; [apply all_chars_strip; exact H2 |].
    split; apply strip_trimmed.
Qed.

(** ** Instances of the further properties *)

Lemma world_facts_infobox title :
  fetched_infobox world_facts title
    ("Born 1815-12-10 in London, England Polar radius 3,376.2 km "
     ++ "Population 1,234 people Official languages English, French"
     ++ String newline EmptyString).
Proof.
  exists title, [], ("<html>" ++ title ++ "</html>")%string,
    ("Born 1815-12-10 in London, England Polar radius 3,376.2 km "
     ++ "Population 1,234 people Official languages English, French"
     ++ String newline EmptyString)%string, [].
  repeat split.
Defined.

Lemma get_birth_date_is_iso_date_witness :
  has_shape iso_date_shape "1815-12-10" = true.
Proof.
  apply (@get_birth_date_is_iso_date world_facts "ada lovelace" "1815-12-10").
  reflexivity.
Defined.

Lemma get_polar_radius_is_numeric_witness :
  "3,376.2" <> EmptyString /\ all_chars is_radius_char "3,376.2" = true.
Proof.
  apply (@get_polar_radius_is_numeric world_facts "mars" "3,376.2").
  reflexivity.
Defined.

Lemma get_population_is_numeric_witness :
  "1,234" <> EmptyString /\ all_chars is_population_char "1,234" = true.
Proof.
  apply (@get_population_is_numeric world_facts "atlantis" "1,234").
  reflexivity.
Defined.

Lemma get_official_language_chars_witness :
  " English, French" <> EmptyString
  /\ all_chars is_language_char " English, French" = true.
Proof.
  apply (@get_official_language_chars world_facts "atlantis" " English, French").
  reflexivity.
Defined.

Lemma get_birth_place_is_city_and_country_witness :
  exists city country,
    "London, England Polar radius" = (city ++ ", " ++ country)%string
    /\ all_chars is_place_char city = true
    /\ all_chars is_place_char country = true
    /\ trimmed city = true /\ trimmed country = true.
Proof.
  apply (@get_birth_place_is_city_and_country world_facts "ada lovelace"
           "London, England Polar radius").
  reflexivity.
Defined.

Lemma search_pa_list_returns_one_answer_witness :
  exists a,
    ["1815-12-10"] = [a]
    /\ a <> "No answers"
    /\ (a = "I don't understand"
        \/ has_shape iso_date_shape a = true
        \/ (a <> EmptyString /\ all_chars is_radius_char a = true)).
Proof.
  apply (@search_pa_list_returns_one_answer world_facts
           ["when"; "was"; "ada"; "lovelace"; "born"] ["1815-12-10"]).
  reflexivity.
Defined.

Lemma query_loop_ends_gracefully_witness :
  query_loop world_ada (map Line ["hello"; "When was Ada Lovelace born?"])
  = ([Welcome]
     ++ transcript world_ada ["hello"; "When was Ada Lovelace born?"]
     ++ [Blank; Prompt; Farewell], None)
  /\ query_loop world_ada
       (map Line ["hello"; "When was Ada Lovelace born?"]
        ++ CtrlC :: [Line "hello"])
     = ([Welcome]
        ++ transcript world_ada ["hello"; "When was Ada Lovelace born?"]
        ++ [Blank; Prompt; Farewell], None).
Proof.
  apply (@query_loop_ends_gracefully world_ada
           ["hello"; "When was Ada Lovelace born?"] [Line "hello"]).
  reflexivity.
Defined.

Lemma blank_line_is_not_understood_witness :
  while_true world_ada (Line "  ? " :: [Line "bye"]) [Welcome]
  = while_true world_ada [Line "bye"]
      ([Welcome] ++ [Blank; Prompt; Answer "I don't understand"]).
Proof.
  apply (proj2 (@blank_line_is_not_understood world_ada "  ? ")).
  reflexivity.
Defined.

Lemma get_birth_date_finds_a_date_witness :
  exists answer,
    get_birth_date world_facts "ada lovelace" = Ok answer
    /\ has_shape iso_date_shape answer = true.
Proof.
  apply (@get_birth_date_finds_a_date world_facts "ada lovelace"
           EmptyString "Born" " " "1815-12-10"
           (" in London, England Polar radius 3,376.2 km "
            ++ "Population 1,234 people Official languages English, French"
            ++ String newline EmptyString)).
  - apply world_facts_infobox.
  - reflexivity.
  - reflexivity.
  - reflexivity.
Defined.

Lemma get_polar_radius_finds_a_radius_witness :
  exists answer,
    get_polar_radius world_facts "mars" = Ok answer
    /\ answer <> EmptyString /\ all_chars is_radius_char answer = true.
Proof.
  apply (@get_polar_radius_finds_a_radius world_facts "mars"
           "Born 1815-12-10 in London, England " "Polar radius" " "
           "3"%char ",376.2" " " "km"
           (" Population 1,234 people Official languages English, French"
            ++ String newline EmptyString)).
  - apply world_facts_infobox.
  - reflexivity.
  - reflexivity.
  - reflexivity.
Defined.

Lemma get_population_finds_a_number_witness :
  exists answer,
    get_population world_facts "atlantis" = Ok answer
    /\ answer <> EmptyString /\ all_chars is_population_char answer = true.
Proof.
  apply (@get_population_finds_a_number world_facts "atlantis"
           "Born 1815-12-10 in London, England Polar radius 3,376.2 km "
           "Population" " " "1"%char ",234" " " "people"
           (" Official languages English, French" ++ String newline EmptyString)).
  - apply world_facts_infobox.
  - reflexivity.
  - reflexivity.
  - reflexivity.
Defined.

Lemma get_official_language_finds_languages_witness :
  exists answer,
    get_official_language world_facts "atlantis" = Ok answer
    /\ answer <> EmptyString /\ all_chars is_language_char answer = true.
Proof.
  apply (@get_official_language_finds_languages world_facts "atlantis"
           ("Born 1815-12-10 in London, England Polar radius 3,376.2 km "
            ++ "Population 1,234 people ")
           "Official" " " "languages" EmptyString " "%char "English, French"
           EmptyString EmptyString).
  - apply world_facts_infobox.
  - reflexivity.
  - reflexivity.
  - reflexivity.
  - reflexivity.
Defined.

Lemma get_birth_place_finds_a_place_witness :
  exists answer city' country',
    get_birth_place world_facts "ada lovelace" = Ok answer
    /\ answer = (city' ++ ", " ++ country')%string
    /\ all_chars is_place_char city' = true
    /\ all_chars is_place_char country' = true
    /\ trimmed city' = true /\ trimmed country' = true.
Proof.
  apply (@get_birth_place_finds_a_place world_facts "ada lovelace"
           "Born 1815-12-10 " "in" " "%char "London" " "%char
           "England Polar radius "
           ("3,376.2 km Population 1,234 people Official languages English, French"
            ++ String newline EmptyString)).
  - apply world_facts_infobox.
  - reflexivity.
  - reflexivity.
  - reflexivity.
Defined.
